(** * Beanie ODM: the query-construction and document core

    A shallow embedding of [beanie/odm/operators/__init__.py],
    [beanie/odm/operators/find/array.py], [beanie/odm/queries/aggregation.py]
    and [beanie/odm/documents.py], with the properties of the design
    document stated and proved over it.

    Python values are embedded as the inductive [value]; a dict literal
    is an insertion-ordered association list; an instance's field
    dictionary and a stored record's body are finite maps; the Motor
    collection is an explicit state threaded through a state-and-exception
    monad together with the trace of the calls issued to it. *)

From Stdlib Require Import ZArith NArith String Ascii DecimalString List Bool
  Lia.
From stdpp Require Import base option list gmap strings fin_maps.

Local Open Scope string_scope.
Local Open Scope list_scope.

(** ** Python and BSON values *)

(** An [ObjectId] is an opaque 12-byte identifier; only equality and
    freshness matter, so it is a natural number. *)
Definition ObjectId := N.

#[warnings="-register-all"]
Inductive value : Type :=
| VNull
| VBool (b : bool)
| VInt (z : Z)
| VStr (s : string)
| VOid (o : ObjectId)
| VList (l : list value)
| VDict (d : list (string * value)).

(** A dict as the interpreter builds it from a literal: entries in
    insertion order, keyed by strings. *)
Abbreviation dict := (list (string * value)).

(** [Optional[PydanticObjectId]] as a Python value. *)
Definition id_value (i : option ObjectId) : value :=
  match i with
  | Some o => VOid o
  | None => VNull
  end.

(** The line feed, and [str] of an integer and of a boolean. *)
Definition newline : string := String "010"%char "".

Definition str_of_int (z : Z) : string :=
  NilZero.string_of_int (Z.to_int z).

Definition str_of_bool (b : bool) : string :=
  if b then "True" else "False".

(** Structural equality of values, the [==] of the interpreter on the
    embedded fragment. *)
Fixpoint value_eqb (a b : value) {struct a} : bool :=
  match a, b with
  | VNull, VNull => true
  | VBool x, VBool y => Bool.eqb x y
  | VInt x, VInt y => Z.eqb x y
  | VStr x, VStr y => String.eqb x y
  | VOid x, VOid y => N.eqb x y
  | VList l1, VList l2 =>
      (fix go (l1 l2 : list value) {struct l1} : bool :=
         match l1, l2 with
         | [], [] => true
         | x :: l1', y :: l2' => value_eqb x y && go l1' l2'
         | _, _ => false
         end) l1 l2
  | VDict d1, VDict d2 =>
      (fix go (d1 d2 : list (string * value)) {struct d1} : bool :=
         match d1, d2 with
         | [], [] => true
         | (k1, x) :: d1', (k2, y) :: d2' =>
             String.eqb k1 k2 && value_eqb x y && go d1' d2'
         | _, _ => false
         end) d1 d2
  | _, _ => false
  end.

(** ** Exceptions *)

Inductive exn : Type :=
| DocumentAlreadyCreated
| DocumentWasNotSaved
| ReplaceError (msg : string)
| ValidationError (msg : string)
| KeyError (key : string)
| TypeError (msg : string)
| DuplicateKeyError (i : option ObjectId)
| WriteError (msg : string).

(** ** The [Mapping] protocol *)

(** [collections.Mapping]: the three abstract methods a mapping supplies. *)
Class Mapping (T : Type) : Type := {
  getitem : T -> string -> exn + value;
  iter : T -> list string;
  len : T -> nat
}.

Fixpoint dict_getitem (d : dict) (item : string) : exn + value :=
  match d with
  | [] => inl (KeyError item)
  | (k, v) :: d' => if String.eqb k item then inr v else dict_getitem d' item
  end.

Definition dict_iter (d : dict) : list string := map fst d.

Definition dict_len (d : dict) : nat := length d.

#[global] Instance dict_Mapping : Mapping dict := {
  getitem := dict_getitem;
  iter := dict_iter;
  len := dict_len
}.

(** [dict(m)] for a mapping [m]: iterate the keys and read each one. *)
Fixpoint collect_items {T : Type} `{Mapping T} (m : T) (keys : list string)
  : exn + dict :=
  match keys with
  | [] => inr []
  | k :: keys' =>
      match getitem m k with
      | inl e => inl e
      | inr v =>
          match collect_items m keys' with
          | inl e => inl e
          | inr d => inr ((k, v) :: d)
          end
      end
  end.

Definition to_dict {T : Type} `{Mapping T} (m : T) : exn + dict :=
  collect_items m (iter m).

(** ** Operators: [operators/__init__.py] and [operators/find/array.py] *)

(** The operator classes. [All], [ElemMatch] and [Size] are the array
    operators of [find/array.py]; [In] is the membership operator that
    [Document.replace_many] builds. Each [__init__] stores its arguments
    as attributes, unchanged, so an instance is its constructor applied
    to the attribute values. *)
Inductive operator : Type :=
| All (field : string) (values : list value)
| ElemMatch (field : string) (expression : dict)
| Size (field : string) (num : Z)
| In (field : string) (values : list value).

(** Modelled from the spec: [In.query] of [operators/find/comparsion.py],
    which is not part of the sources at hand. The comparison family
    renders as [{path: {"$<op>": value}}]. *)
Definition In_query (field : string) (values : list value) : dict :=
  [(field, VDict [("$in", VList values)])].

(** The getter of the [query] property, per class. A property access
    runs the getter on the instance; it returns the dict the getter
    builds together with the instance as the getter leaves it. *)
Definition query_getter (self : operator) : dict * operator :=
  match self with
  | All field values =>
      ([(field, VDict [("$all", VList values)])], All field values)
  | ElemMatch field expression =>
      ([(field, VDict [("$elemMatch", VDict expression)])],
       ElemMatch field expression)
  | Size field num =>
      ([(field, VDict [("$size", VInt num)])], Size field num)
  | In field values => (In_query field values, In field values)
  end.

(** [self.query] as an expression. *)
Definition query (self : operator) : dict := fst (query_getter self).

(** [BaseOperator.__getitem__], [__iter__] and [__len__]. *)
Definition op_getitem (self : operator) (item : string) : exn + value :=
  dict_getitem (query self) item.

Definition op_iter (self : operator) : list string := dict_iter (query self).

Definition op_len (self : operator) : nat := dict_len (query self).

#[global] Instance operator_Mapping : Mapping operator := {
  getitem := op_getitem;
  iter := op_iter;
  len := op_len
}.

(** A search criterion is [Union[dict, Mapping]]: a raw dict or an
    operator. *)
Inductive criterion : Type :=
| Raw (d : dict)
| Op (o : operator).

(** What the driver reads off a criterion when it encodes it: the items
    of the mapping, through the [Mapping] protocol. *)
Definition encode (c : criterion) : exn + dict :=
  match c with
  | Raw d => inr d
  | Op o => to_dict o
  end.

(** ** Aggregation queries: [queries/aggregation.py] *)

(** A session is an opaque token handed through to the driver. *)
Definition ClientSession := nat.

(** A projection model is a pydantic class; what the query layer reads
    of it is the storage aliases of its fields. *)
Record ProjectionModel : Type := {
  aliases : list string
}.

(** Modelled from the spec: [get_projection] of [utils/projection.py],
    which is not part of the sources at hand. The project stage is built
    from the schema's field set: each storage path is selected. *)
Definition get_projection (model : ProjectionModel) : dict :=
  map (fun a => (a, VInt 1)) (aliases model).

Record AggregationQuery : Type := {
  aggregation_pipeline : list value;
  projection_model : option ProjectionModel;
  find_query : dict;
  session : option ClientSession
}.

(** [AggregationQuery.get_aggregation_pipeline]. A dict is true when it
    is not empty; a class is true, [None] is not. *)
Definition get_aggregation_pipeline (self : AggregationQuery) : list value :=
  let match_pipeline :=
    match find_query self with
    | [] => []
    | _ :: _ => [VDict [("$match", VDict (find_query self))]]
    end in
  let projection_pipeline :=
    match projection_model self with
    | Some model => [VDict [("$project", VDict (get_projection model))]]
    | None => []
    end in
  match_pipeline ++ aggregation_pipeline self ++ projection_pipeline.

(** ** The state-and-exception monad *)

(** A computation over a state [S] that returns a value or raises; the
    state it leaves is kept in both cases, as an exception does not undo
    the writes made before it. *)
Definition SE (S A : Type) : Type := S -> (exn + A) * S.

#[global] Instance SE_ret {S : Type} : MRet (SE S) :=
  fun A a s => (inr a, s).

#[global] Instance SE_bind {S : Type} : MBind (SE S) :=
  fun A B f m s =>
    match m s with
    | (inl e, s') => (inl e, s')
    | (inr a, s') => f a s'
    end.

Definition raise {S A : Type} (e : exn) : SE S A := fun s => (inl e, s).

Definition gets {S A : Type} (f : S -> A) : SE S A := fun s => (inr (f s), s).

Definition modify {S : Type} (f : S -> S) : SE S unit := fun s => (inr tt, f s).

(** ** The Motor collection *)

(** A stored record: its [_id], an [ObjectId] or null, and the other
    top-level fields. *)
Record record : Type := {
  rec_id : option ObjectId;
  rec_body : gmap string value
}.

(** A document handed to an insert: with an [_id] key ([Some i], where
    [i] may be null) or without one ([None]). *)
Record payload : Type := {
  payload_id : option (option ObjectId);
  payload_body : gmap string value
}.

(** The calls of the driver interface, with their arguments. *)
Inductive call : Type :=
| insert_one_call (document : payload) (session : option ClientSession)
| insert_many_call (documents : list payload) (session : option ClientSession)
| find_call (flt : dict) (session : option ClientSession)
| find_one_call (flt : dict) (session : option ClientSession)
| count_documents_call (flt : dict) (session : option ClientSession)
| update_one_call (flt : dict) (update : list dict)
    (session : option ClientSession)
| delete_one_call (flt : dict) (session : option ClientSession)
| delete_many_call (flt : dict) (session : option ClientSession)
| replace_one_call (flt : dict) (replacement : gmap string value)
    (session : option ClientSession)
| aggregate_call (pipeline : list value) (session : option ClientSession).

(** The collection: its records in natural order, the last identity
    generated, and the calls received so far, oldest first. *)
Record collection : Type := {
  records : list record;
  last_oid : ObjectId;
  trace : list call
}.

(** The value of a top-level path in a record; a missing field reads as
    null. *)
Definition field_value (r : record) (path : string) : value :=
  if String.eqb path "_id" then id_value (rec_id r)
  else default VNull (rec_body r !! path).

(** A condition on one path: [{"$in": [...]}] or a literal to equal. *)
Definition holds (v : value) (cond : value) : bool :=
  match cond with
  | VDict [(op, VList vs)] =>
      if String.eqb op "$in" then existsb (value_eqb v) vs
      else value_eqb v cond
  | _ => value_eqb v cond
  end.

(** The fragment of the query language the document layer emits: a
    conjunction of conditions on top-level paths, and [$and]. *)
Fixpoint matches_value (r : record) (q : value) {struct q} : bool :=
  match q with
  | VDict entries =>
      (fix conj (es : list (string * value)) : bool :=
         match es with
         | [] => true
         | (k, c) :: es' =>
             (if String.eqb k "$and" then
                match c with
                | VList qs =>
                    (fix every (qs : list value) : bool :=
                       match qs with
                       | [] => true
                       | q' :: qs' => matches_value r q' && every qs'
                       end) qs
                | _ => false
                end
              else holds (field_value r k) c) && conj es'
         end) entries
  | _ => false
  end.

Definition matches (flt : dict) (r : record) : bool :=
  matches_value r (VDict flt).

#[global] Arguments matches : simpl never.

Definition selected (flt : dict) (rs : list record) : list record :=
  List.filter (matches flt) rs.

Definition rejected (flt : dict) (rs : list record) : list record :=
  List.filter (fun r => negb (matches flt r)) rs.

Definition has_id (i : option ObjectId) (r : record) : bool :=
  value_eqb (id_value (rec_id r)) (id_value i).

Definition max_oid (rs : list record) : ObjectId :=
  foldr (fun r m => match rec_id r with
                    | Some o => N.max o m
                    | None => m
                    end) 0%N rs.

(** The identity the driver generates is unlike any identity in the
    collection and any identity generated before. *)
Definition fresh_oid (c : collection) : ObjectId :=
  N.succ (N.max (last_oid c) (max_oid (records c))).

Definition log (c : call) : SE collection unit :=
  modify (fun w => {| records := records w;
                      last_oid := last_oid w;
                      trace := trace w ++ [c] |}).

Definition set_records (rs : list record) : SE collection unit :=
  modify (fun w => {| records := rs;
                      last_oid := last_oid w;
                      trace := trace w |}).

(** One write of an insert. A document without [_id] receives a fresh
    one; a document whose [_id] is already stored violates the unique
    index on [_id]. The result is the [_id] written. *)
Definition write_one (p : payload) : SE collection (option ObjectId) :=
  fun w =>
    match payload_id p with
    | None =>
        let o := fresh_oid w in
        (inr (Some o),
         {| records := records w ++
                       [{| rec_id := Some o; rec_body := payload_body p |}];
            last_oid := o;
            trace := trace w |})
    | Some i =>
        if existsb (has_id i) (records w)
        then (inl (DuplicateKeyError i), w)
        else
          (inr i,
           {| records := records w ++
                         [{| rec_id := i; rec_body := payload_body p |}];
              last_oid := last_oid w;
              trace := trace w |})
    end.

(** An ordered bulk write: stops at the first failure, keeping what was
    written before it. *)
Fixpoint write_many (ps : list payload)
  : SE collection (list (option ObjectId)) :=
  match ps with
  | [] => mret []
  | p :: ps' =>
      i ← write_one p;
      rest ← write_many ps';
      mret (i :: rest)
  end.

Definition motor_insert_one (document : payload)
    (session : option ClientSession) : SE collection (option ObjectId) :=
  _ ← log (insert_one_call document session);
  write_one document.

(** The driver's [insert_many] refuses an empty batch before it writes
    anything. *)
Definition motor_insert_many (documents : list payload)
    (session : option ClientSession)
  : SE collection (list (option ObjectId)) :=
  _ ← log (insert_many_call documents session);
  match documents with
  | [] => raise (TypeError "documents must be a non-empty list")
  | _ :: _ => write_many documents
  end.

Definition motor_find (flt : dict) (session : option ClientSession)
  : SE collection (list record) :=
  _ ← log (find_call flt session);
  gets (fun w => selected flt (records w)).

Definition motor_find_one (flt : dict) (session : option ClientSession)
  : SE collection (option record) :=
  _ ← log (find_one_call flt session);
  gets (fun w => head (selected flt (records w))).

Definition motor_count_documents (flt : dict)
    (session : option ClientSession) : SE collection nat :=
  _ ← log (count_documents_call flt session);
  gets (fun w => length (selected flt (records w))).

Definition motor_delete_many (flt : dict) (session : option ClientSession)
  : SE collection nat :=
  _ ← log (delete_many_call flt session);
  n ← gets (fun w => length (selected flt (records w)));
  rs ← gets (fun w => rejected flt (records w));
  _ ← set_records rs;
  mret n.

(** Apply [f] to the first record that [flt] selects. *)
Fixpoint on_first (flt : dict) (f : record -> record) (rs : list record)
  : list record :=
  match rs with
  | [] => []
  | r :: rs' =>
      if matches flt r then f r :: rs' else r :: on_first flt f rs'
  end.

(** A full replacement keeps the [_id] of the record it replaces. The
    result is the number of records matched. *)
Definition motor_replace_one (flt : dict) (replacement : gmap string value)
    (session : option ClientSession) : SE collection nat :=
  _ ← log (replace_one_call flt replacement session);
  rs ← gets records;
  match head (selected flt rs) with
  | None => mret 0
  | Some _ =>
      _ ← set_records
            (on_first flt
               (fun r => {| rec_id := rec_id r; rec_body := replacement |})
               rs);
      mret 1
  end.

(** How the server applies an update document to a record's fields is
    the server's business: it yields the new fields or a write error.
    The [_id] of a record cannot be updated. *)
Class UpdateLanguage : Type := {
  apply_update : list dict -> gmap string value -> string + gmap string value
}.

Definition motor_update_one `{UpdateLanguage} (flt : dict)
    (update : list dict) (session : option ClientSession)
  : SE collection nat :=
  _ ← log (update_one_call flt update session);
  rs ← gets records;
  match head (selected flt rs) with
  | None => mret 0
  | Some r =>
      match apply_update update (rec_body r) with
      | inl e => raise (WriteError e)
      | inr b =>
          _ ← set_records
                (on_first flt
                   (fun r => {| rec_id := rec_id r; rec_body := b |}) rs);
          mret 1
      end
  end.

(** ** Find queries *)

Definition criterion_dict (c : criterion) : dict :=
  match c with
  | Raw d => d
  | Op o => query o
  end.

(** Modelled from the spec: [get_filter_query] of the query objects of
    [queries/find.py], which is not part of the sources at hand. The
    accumulated criteria are merged by logical conjunction; no criterion
    is the empty filter and a single criterion is the filter itself. *)
Definition get_filter_query (find_expressions : list criterion) : dict :=
  match find_expressions with
  | [] => []
  | [c] => criterion_dict c
  | _ => [("$and", VList (map (fun c => VDict (criterion_dict c))
                             find_expressions))]
  end.

(** [set_session]: a session replaces the attached one only when one is
    given. *)
Definition set_session (given attached : option ClientSession)
  : option ClientSession :=
  match given with
  | Some s => Some s
  | None => attached
  end.

Inductive SortDirection : Type := ASCENDING | DESCENDING.

(** Modelled from the spec: the Find-One query object of
    [queries/find.py], which is not part of the sources at hand: the
    accumulated criteria, the optional projection and the attached
    session. *)
Record FindOne : Type := {
  one_expressions : list criterion;
  one_projection : option ProjectionModel;
  one_session : option ClientSession
}.

(** Modelled from the spec: the Find-Many query object of
    [queries/find.py], which is not part of the sources at hand; it
    accepts in addition a sort (a path, meaning ascending, or ordered
    pairs), a skip and a limit. *)
Record FindMany : Type := {
  many_expressions : list criterion;
  many_projection : option ProjectionModel;
  many_session : option ClientSession;
  many_sort : option (string + list (string * SortDirection));
  many_skip : option nat;
  many_limit : option nat
}.

(** Modelled from the spec: [FindOne(document_model=cls)], a query in
    its accumulating state with nothing accepted yet. *)
Definition FindOne_new : FindOne :=
  {| one_expressions := []; one_projection := None; one_session := None |}.

(** Modelled from the spec: [FindOne.find_one], which accepts criteria,
    a projection and a session and returns the same builder. *)
Definition FindOne_find_one (self : FindOne) (args : list criterion)
    (projection_model : option ProjectionModel)
    (session : option ClientSession) : FindOne :=
  {| one_expressions := one_expressions self ++ args;
     one_projection := projection_model;
     one_session := set_session session (one_session self) |}.

(** Modelled from the spec: [FindMany(document_model=cls)]. *)
Definition FindMany_new : FindMany :=
  {| many_expressions := []; many_projection := None; many_session := None;
     many_sort := None; many_skip := None; many_limit := None |}.

(** Modelled from the spec: [FindMany.find_many]; repeated options
    overwrite. *)
Definition FindMany_find_many (self : FindMany) (args : list criterion)
    (sort : option (string + list (string * SortDirection)))
    (skip limit : option nat)
    (projection_model : option ProjectionModel)
    (session : option ClientSession) : FindMany :=
  {| many_expressions := many_expressions self ++ args;
     many_projection := projection_model;
     many_session := set_session session (many_session self);
     many_sort := sort; many_skip := skip; many_limit := limit |}.

(** Modelled from the spec: [FindMany.count], the integer of the store's
    count capability for the filter, under the query's skip and limit. *)
Definition FindMany_count (self : FindMany) : SE collection nat :=
  n ← motor_count_documents (get_filter_query (many_expressions self))
        (many_session self);
  let n := n - default 0 (many_skip self) in
  mret (match many_limit self with
        | Some l => Nat.min l n
        | None => n
        end).

(** Modelled from the spec: [FindMany.delete], which removes what the
    filter selects and returns the store's outcome. *)
Definition FindMany_delete (self : FindMany)
    (session : option ClientSession) : SE collection nat :=
  motor_delete_many (get_filter_query (many_expressions self))
    (set_session session (many_session self)).

(** Modelled from the spec: [FindMany.aggregate], which hands the
    accumulated filter, the stages and the projection to an aggregation
    query and attaches the session. *)
Definition FindMany_aggregate (self : FindMany)
    (aggregation_pipeline : list value)
    (projection_model : option ProjectionModel)
    (session : option ClientSession) : AggregationQuery :=
  {| aggregation_pipeline := aggregation_pipeline;
     projection_model := projection_model;
     find_query := get_filter_query (many_expressions self);
     session := set_session session None |}.

(** [AggregationQuery.motor_cursor]: the call the cursor issues. *)
Definition motor_cursor (self : AggregationQuery) : call :=
  aggregate_call (get_aggregation_pipeline self) (session self).

(** ** Documents: [documents.py] *)

(** A [Document] instance: the [id] field, whose alias is [_id], and the
    fields of the subclass by storage path. *)
Record Document : Type := {
  id : option ObjectId;
  fields : gmap string value
}.

(** A subclass of [Document] is its pydantic validation: given the
    fields of a raw record it yields the validated field values or the
    text of the validation error. *)
Class DocumentModel : Type := {
  validate : gmap string value -> string + gmap string value
}.

(** [self.dict(by_alias=True)], with or without [exclude={"id"}]. *)
Definition dict_by_alias (exclude_id : bool) (self : Document) : payload :=
  {| payload_id := if exclude_id then None else Some (id self);
     payload_body := fields self |}.

(** An item of [dict(instance).items()] and the argument of [setattr]. *)
Inductive attribute : Type :=
| attr_id (i : option ObjectId)
| attr_field (key : string) (v : value).

Definition items (self : Document) : list attribute :=
  attr_id (id self)
  :: map (fun kv => attr_field (fst kv) (snd kv)) (map_to_list (fields self)).

(** Instance methods run over the instance and the collection. *)
Abbreviation Method := (SE (Document * collection)).

Definition this : Method Document := gets fst.

Definition await {A : Type} (m : SE collection A) : Method A :=
  fun s =>
    let '(r, w) := m (snd s) in (r, (fst s, w)).

Definition setattr (a : attribute) : Method unit :=
  modify (fun s =>
    (match a with
     | attr_id i => {| id := i; fields := fields (fst s) |}
     | attr_field key v =>
         {| id := id (fst s); fields := <[key := v]> (fields (fst s)) |}
     end, snd s)).

Fixpoint for_each {S A : Type} (l : list A) (body : A -> SE S unit)
  : SE S unit :=
  match l with
  | [] => mret tt
  | x :: l' => _ ← body x; for_each l' body
  end.

Section Document.

Context `{DocumentModel} `{UpdateLanguage}.

(** [cls.parse_obj]: the instance built from a raw record, or the text
    of the [ValidationError] it raises. *)
Definition parse_obj (json_document : record) : string + Document :=
  match validate (rec_body json_document) with
  | inl e => inl e
  | inr f => inr {| id := rec_id json_document; fields := f |}
  end.

(** Modelled from the spec: awaiting a Find-One query, the
    single-element fetch of [queries/find.py], which is not part of the
    sources at hand. It returns the mapped entity, or the instance of the
    narrower projection schema, or nothing when the stream is empty. *)
Definition FindOne_await (self : FindOne) : SE collection (option Document) :=
  r ← motor_find_one (get_filter_query (one_expressions self))
        (one_session self);
  match r with
  | None => mret None
  | Some r =>
      match one_projection self with
      | None =>
          match parse_obj r with
          | inl e => raise (ValidationError e)
          | inr d => mret (Some d)
          end
      | Some model =>
          mret (Some {| id := if existsb (String.eqb "_id") (aliases model)
                              then rec_id r else None;
                        fields :=
                          filter (fun kv => fst kv ∈ aliases model)
                                 (rec_body r) |})
      end
  end.

(** Modelled from the spec: [FindOne.replace_one], a full replacement of
    the record the filter selects by the entity's fields, the session
    propagated. *)
Definition FindOne_replace_one (self : FindOne) (document : Document)
    (session : option ClientSession) : SE collection nat :=
  motor_replace_one (get_filter_query (one_expressions self))
    (payload_body (dict_by_alias true document))
    (set_session session (one_session self)).

(** Modelled from the spec: [FindOne.update], a partial update of the
    record the filter selects by the given modifications. *)
Definition FindOne_update (self : FindOne) (args : list dict)
    (session : option ClientSession) : SE collection nat :=
  motor_update_one (get_filter_query (one_expressions self)) args
    (set_session session (one_session self)).

(** [Document.find_one]. *)
Definition find_one (args : list criterion)
    (projection_model : option ProjectionModel)
    (session : option ClientSession) : FindOne :=
  FindOne_find_one FindOne_new args projection_model session.

(** [Document.get]. *)
Definition get (document_id : option ObjectId)
    (session : option ClientSession) : SE collection (option Document) :=
  FindOne_await
    (find_one [Raw [("_id", id_value document_id)]] None session).

(** [Document.find_many], [Document.find] and [Document.find_all]. *)
Definition find_many (args : list criterion)
    (skip limit : option nat)
    (sort : option (string + list (string * SortDirection)))
    (projection_model : option ProjectionModel)
    (session : option ClientSession) : FindMany :=
  FindMany_find_many FindMany_new args sort skip limit projection_model
    session.

Definition find (args : list criterion)
    (skip limit : option nat)
    (sort : option (string + list (string * SortDirection)))
    (projection_model : option ProjectionModel)
    (session : option ClientSession) : FindMany :=
  find_many args skip limit sort projection_model session.

Definition find_all (skip limit : option nat)
    (sort : option (string + list (string * SortDirection)))
    (projection_model : option ProjectionModel)
    (session : option ClientSession) : FindMany :=
  find_many [Raw []] skip limit sort projection_model session.

(** [Document._sync]. Iterating [None] is a [TypeError]. *)
Definition _sync : Method unit :=
  self ← this;
  new_instance ← await (get (id self) None);
  match new_instance with
  | None => raise (TypeError "'NoneType' object is not iterable")
  | Some new_instance => for_each (items new_instance) setattr
  end.

(** [Document.insert]. *)
Definition insert (session : option ClientSession) : Method Document :=
  self ← this;
  match id self with
  | Some _ => raise DocumentAlreadyCreated
  | None =>
      inserted_id ← await (motor_insert_one (dict_by_alias true self)
                             session);
      _ ← setattr (attr_id inserted_id);
      this
  end.

(** [Document.insert_many]. *)
Definition insert_many (documents : list Document) (keep_ids : bool)
    (session : option ClientSession)
  : SE collection (list (option ObjectId)) :=
  let documents_list :=
    if keep_ids
    then map (dict_by_alias false) documents
    else map (dict_by_alias true) documents in
  motor_insert_many documents_list session.

(** [Document.replace]. *)
Definition replace (session : option ClientSession) : Method Document :=
  self ← this;
  match id self with
  | None => raise DocumentWasNotSaved
  | Some _ =>
      _ ← await (FindOne_replace_one
                   (find_one [Raw [("_id", id_value (id self))]] None None)
                   self session);
      this
  end.

(** [Document.replace_many]. [cls.id] is the expression field of the
    storage path [_id]. *)
Definition replace_many (documents : list Document)
    (session : option ClientSession) : SE collection unit :=
  let ids_list := map id documents in
  let by_ids := Op (In "_id" (map id_value ids_list)) in
  n ← FindMany_count (find [by_ids] None None None None None);
  if negb (Nat.eqb n (length ids_list))
  then raise (ReplaceError
                "Some of the documents are not exist in the collection")
  else
    _ ← FindMany_delete (find [by_ids] None None None None session) None;
    _ ← insert_many documents true session;
    mret tt.

(** [Document.update]. *)
Definition update (args : list dict) (session : option ClientSession)
  : Method unit :=
  self ← this;
  _ ← await (FindOne_update
               (find_one [Raw [("_id", id_value (id self))]] None None)
               args session);
  _sync.

(** [Document.aggregate]. *)
Definition aggregate (aggregation_pipeline : list value)
    (aggregation_model : option ProjectionModel)
    (session : option ClientSession) : AggregationQuery :=
  FindMany_aggregate (find_all None None None None None)
    aggregation_pipeline aggregation_model session.

(** The inspection result of [odm/models.py]: a status and the errors,
    each the identity of a record and the text of its validation
    error. *)
Inductive InspectionStatuses : Type := FAIL | OK.

Record InspectionError : Type := {
  document_id : option ObjectId;
  error : string
}.

Record InspectionResult : Type := {
  status : InspectionStatuses;
  errors : list InspectionError
}.

(** Modelled from the spec: the construction of an [InspectionError] of
    [odm/models.py], which is not part of the sources at hand. An entry
    is a record identity and an error message; the identity is a
    [PydanticObjectId], a required field, so that [None] is refused with
    the validation error of the entry's own class. *)
Definition InspectionError_init (document_id : option ObjectId)
    (error : string) : string + InspectionError :=
  match document_id with
  | None =>
      inl ("1 validation error for InspectionError" +:+ newline +:+
           "document_id" +:+ newline +:+
           "  none is not an allowed value (type=type_error.none.not_allowed)")
  | Some _ => inr {| document_id := document_id; error := error |}
  end.

(** The body of the loop of [Document.inspect_collection], on the result
    so far: the [try] and its [except ValidationError] clause. The
    exception that the construction of the entry raises inside the clause
    leaves the loop. *)
Definition inspect_document (inspection_result : InspectionResult)
    (json_document : record) : exn + InspectionResult :=
  match parse_obj json_document with
  | inr _ => inr inspection_result
  | inl e =>
      let status := match status inspection_result with
                    | OK => FAIL
                    | other => other
                    end in
      match InspectionError_init (rec_id json_document) e with
      | inl msg => inl (ValidationError msg)
      | inr entry =>
          inr {| status := status;
                 errors := errors inspection_result ++ [entry] |}
      end
  end.

(** The [async for] loop over the cursor. *)
Fixpoint inspect_documents (cursor : list record)
    (inspection_result : InspectionResult) : exn + InspectionResult :=
  match cursor with
  | [] => inr inspection_result
  | json_document :: cursor' =>
      match inspect_document inspection_result json_document with
      | inl e => inl e
      | inr inspection_result' =>
          inspect_documents cursor' inspection_result'
      end
  end.

(** [Document.inspect_collection]. *)
Definition inspect_collection (session : option ClientSession)
  : SE collection InspectionResult :=
  cursor ← motor_find [] session;
  match inspect_documents cursor {| status := OK; errors := [] |} with
  | inl e => raise e
  | inr inspection_result => mret inspection_result
  end.

End Document.

(** The state an operator holds: its class, its field reference and its
    operand. *)
Inductive keyword : Type := kw_all | kw_elemMatch | kw_size | kw_in.

Definition held_state (op : operator) : keyword * string * value :=
  match op with
  | All field values => (kw_all, field, VList values)
  | ElemMatch field expression => (kw_elemMatch, field, VDict expression)
  | Size field num => (kw_size, field, VInt num)
  | In field values => (kw_in, field, VList values)
  end.

Definition keyword_name (k : keyword) : string :=
  match k with
  | kw_all => "$all"
  | kw_elemMatch => "$elemMatch"
  | kw_size => "$size"
  | kw_in => "$in"
  end.

(** ** Operators as objects *)

(** The operator classes again, as the interpreter has them: objects in
    a store of objects, whose attributes hold immediate values or
    references, so that what a getter writes, allocates or shares can be
    told. *)
Definition loc := positive.

(** A Python value as a variable or an attribute holds it: immutable
    values themselves, the others by reference. *)
Inductive hval : Type :=
| HNull
| HBool (b : bool)
| HInt (z : Z)
| HStr (s : string)
| HOid (o : ObjectId)
| HRef (l : loc).

(** The objects with identity: lists, dicts with their string keys, and
    instances of the operator classes with the two attributes their
    [__init__] sets, the field reference, a string, and the operand. *)
Inductive hobj : Type :=
| HList (items : list hval)
| HDict (entries : list (string * hval))
| HOperator (cls : keyword) (field : string) (operand : hval).

Abbreviation heap := (gmap loc hobj).

(** A new object is given a location that holds none. *)
Definition alloc (o : hobj) (h : heap) : loc * heap :=
  let l := fresh (dom h) in (l, <[l := o]> h).

(** The [__init__] of the operator classes: [self.field = field] and the
    assignment of the operand, both as given. *)
Definition operator_init (cls : keyword) (field : string) (operand : hval)
    (h : heap) : loc * heap :=
  alloc (HOperator cls field operand) h.

(** The getter of [query], [{self.field: {"$<op>": self.<operand>}}]:
    the two attributes are read, the inner dict is built, then the outer
    one. [self] is an instance of an operator class: the getter is not
    defined on a location that holds none. *)
Definition query_property (self : loc) (h : heap) : option (hval * heap) :=
  match h !! self with
  | Some (HOperator cls field operand) =>
      let '(inner, h) := alloc (HDict [(keyword_name cls, operand)]) h in
      let '(outer, h) := alloc (HDict [(field, HRef inner)]) h in
      Some (HRef outer, h)
  | _ => None
  end.

(** The value an [hval] stands for in a store of objects, followed
    through at most [n] references. *)
Fixpoint reify (n : nat) (h : heap) (v : hval) : option value :=
  match v with
  | HNull => Some VNull
  | HBool b => Some (VBool b)
  | HInt z => Some (VInt z)
  | HStr s => Some (VStr s)
  | HOid o => Some (VOid o)
  | HRef l =>
      match n with
      | 0 => None
      | S n' =>
          match h !! l with
          | Some (HList items) => VList <$> mapM (reify n' h) items
          | Some (HDict entries) =>
              VDict <$>
                mapM (fun kv => pair (fst kv) <$> reify n' h (snd kv))
                  entries
          | _ => None
          end
      end
  end.

(** A store with the list [[80, 85]] and the operator
    [All("results", ...)] built on it. *)
Definition results_heap : heap :=
  <[2%positive := HOperator kw_all "results" (HRef 1%positive)]>
    (<[1%positive := HList [HInt 80; HInt 85]]> ∅).

(** ** The design document's wording, for comparison *)

(** The stages of an aggregation as the design document lists them: an
    optional match stage, the caller's stages, an optional project
    stage. *)
Definition spec_match_stage (flt : dict) : option value :=
  if decide (flt = []) then None else Some (VDict [("$match", VDict flt)]).

Definition spec_project_stage (model : option ProjectionModel)
  : option value :=
  match model with
  | None => None
  | Some m =>
      Some (VDict [("$project",
                    VDict (map (fun a => (a, VInt 1)) (aliases m)))])
  end.

Definition spec_pipeline (q : AggregationQuery) : list value :=
  option_list (spec_match_stage (find_query q))
  ++ aggregation_pipeline q
  ++ option_list (spec_project_stage (projection_model q)).

(** The error entries the design document asks of an inspection: one
    per record that fails validation, in stream order, with the record's
    identity and the error text. *)
Definition spec_errors `{DocumentModel} (rs : list record)
  : list InspectionError :=
  flat_map (fun r => match parse_obj r with
                     | inl e => [{| document_id := rec_id r; error := e |}]
                     | inr _ => []
                     end) rs.

Definition conforms `{DocumentModel} (r : record) : Prop :=
  exists d : Document, parse_obj r = inr d.

(** ** A concrete class *)

(** pydantic's validator of a [str] field: a string is kept, an integer
    or a boolean is converted with [str], anything else is refused. *)
Definition str_validator (v : value) : string + string :=
  match v with
  | VStr s => inr s
  | VInt z => inr (str_of_int z)
  | VBool b => inr (str_of_bool b)
  | VNull =>
      inl "none is not an allowed value (type=type_error.none.not_allowed)"
  | VOid _ | VList _ | VDict _ => inl "str type expected (type=type_error.str)"
  end.

(** The text of a [ValidationError] of one error, at a field of a
    model. *)
Definition validation_error_text (model loc msg : string) : string :=
  "1 validation error for " +:+ model +:+ newline +:+
  loc +:+ newline +:+ "  " +:+ msg.

(** The class [class Note(Document): title: str]: one required field;
    the other keys of a raw record are ignored. *)
Definition Note_validate (b : gmap string value)
  : string + gmap string value :=
  match b !! "title" with
  | None =>
      inl (validation_error_text "Note" "title"
             "field required (type=value_error.missing)")
  | Some v =>
      match str_validator v with
      | inl msg => inl (validation_error_text "Note" "title" msg)
      | inr t => inr (<["title" := VStr t]> ∅)
      end
  end.

Definition Note : DocumentModel := {| validate := Note_validate |}.

(** An update language that knows [$set] on top-level paths only. *)
Fixpoint set_only (update : list dict) (b : gmap string value)
  : string + gmap string value :=
  match update with
  | [] => inr b
  | [(op, VDict kvs)] :: update' =>
      if String.eqb op "$set"
      then set_only update' (foldl (fun m kv => <[fst kv := snd kv]> m) b kvs)
      else inl "Unknown modifier"
  | _ :: _ => inl "Unknown modifier"
  end.

Definition SetOnly : UpdateLanguage := {| apply_update := set_only |}.

(** The fields of a note, and the fields of a record written under an
    older schema, which has a name and no title. *)
Definition note_fields (title : string) : gmap string value :=
  <["title" := VStr title]> ∅.

Definition old_note_fields (name : string) : gmap string value :=
  <["name" := VStr name]> ∅.

Definition unsaved_note : Document :=
  {| id := None; fields := note_fields "0" |}.

Definition new_collection : collection :=
  {| records := []; last_oid := 0%N; trace := [] |}.

(** A collection of three notes, the second of which still has the old
    schema. *)
Definition three_notes : collection :=
  {| records := [ {| rec_id := Some 1%N; rec_body := note_fields "0" |};
                  {| rec_id := Some 2%N; rec_body := old_note_fields "1" |};
                  {| rec_id := Some 3%N; rec_body := note_fields "2" |} ];
     last_oid := 3%N;
     trace := [] |}.


(** The stored records whose identity is among the given ones, and
    the others. *)
Definition stored_among (ids : list (option ObjectId)) (rs : list record)
  : list record :=
  List.filter (fun r => bool_decide (rec_id r ∈ ids)) rs.

Definition stored_apart (ids : list (option ObjectId)) (rs : list record)
  : list record :=
  List.filter (fun r => negb (bool_decide (rec_id r ∈ ids))) rs.

(** The record a document is stored as when its identity is kept. *)
Definition as_record (d : Document) : record :=
  {| rec_id := id d; rec_body := fields d |}.

(** Ten notes, the fifth of which still has the old schema. *)
Definition ten_notes : collection :=
  {| records :=
       [ {| rec_id := Some 1%N; rec_body := note_fields "0" |};
         {| rec_id := Some 2%N; rec_body := note_fields "1" |};
         {| rec_id := Some 3%N; rec_body := note_fields "2" |};
         {| rec_id := Some 4%N; rec_body := note_fields "3" |};
         {| rec_id := Some 5%N; rec_body := old_note_fields "4" |};
         {| rec_id := Some 6%N; rec_body := note_fields "5" |};
         {| rec_id := Some 7%N; rec_body := note_fields "6" |};
         {| rec_id := Some 8%N; rec_body := note_fields "7" |};
         {| rec_id := Some 9%N; rec_body := note_fields "8" |};
         {| rec_id := Some 10%N; rec_body := note_fields "9" |} ];
     last_oid := 10%N;
     trace := [] |}.

(** ** The rest of [documents.py] *)

Module Documents.

(** Remove the first record that [flt] selects. *)
Fixpoint remove_first (flt : dict) (rs : list record) : list record :=
  match rs with
  | [] => []
  | r :: rs' => if matches flt r then rs' else r :: remove_first flt rs'
  end.

(** The driver's [delete_one]: the result is the number of records
    deleted. *)
Definition motor_delete_one (flt : dict) (session : option ClientSession)
  : SE collection nat :=
  _ ← log (delete_one_call flt session);
  rs ← gets records;
  match head (selected flt rs) with
  | None => mret 0
  | Some _ => _ ← set_records (remove_first flt rs); mret 1
  end.

(** Modelled from the spec: [FindOne.delete] of [queries/find.py], which
    is not part of the sources at hand. It removes the record the filter
    selects and returns the store's delete outcome. *)
Definition FindOne_delete (self : FindOne) (session : option ClientSession)
  : SE collection nat :=
  motor_delete_one (get_filter_query (one_expressions self))
    (set_session session (one_session self)).

(** [Document.create]. *)
Definition create (session : option ClientSession) : Method Document :=
  insert session.

(** [Document.insert_one], a class method: the result carries the
    identity written. *)
Definition insert_one (document : Document) (session : option ClientSession)
  : SE collection (option ObjectId) :=
  motor_insert_one (dict_by_alias true document) session.

(** [Document.delete]. *)
Definition delete (session : option ClientSession) : Method nat :=
  self ← this;
  await (FindOne_delete
           (find_one [Raw [("_id", id_value (id self))]] None None)
           session).

(** [Document.delete_all]. *)
Definition delete_all (session : option ClientSession)
  : SE collection nat :=
  FindMany_delete (find_all None None None None None) session.

(** [Document.count]. *)
Definition count : SE collection nat :=
  FindMany_count (find_all None None None None None).

(** *** The binding of a class to its collection *)

(** The handle of a Motor collection is opaque: it is named. *)
Definition AsyncIOMotorCollection := string.

(** What [collection_factory] returns, as far as this file reads it. *)
Record CollectionMeta : Type := {
  motor_collection : AsyncIOMotorCollection
}.

(** A pydantic field of the class: its name and its alias. *)
Record ModelField : Type := {
  name : string;
  alias : string
}.

(** What this file sets as an attribute of the class: the collection
    meta or an [ExpressionField] of a path. *)
Inductive class_attribute : Type :=
| meta_attribute (m : CollectionMeta)
| expression_field (path : string).

(** The class object: its pydantic fields and its attributes. *)
Record DocumentClass : Type := {
  __fields__ : gmap string ModelField;
  attributes : gmap string class_attribute
}.

Inductive class_exn : Type := CollectionWasNotInitialized.

(** [setattr(cls, key, value)]. *)
Definition setattr_class (key : string) (a : class_attribute)
    (cls : DocumentClass) : DocumentClass :=
  {| __fields__ := __fields__ cls;
     attributes := <[key := a]> (attributes cls) |}.

(** [v.alias or v.name]: the empty string is false. *)
Definition storage_path (v : ModelField) : string :=
  if String.eqb (alias v) "" then name v else alias v.

(** [Document.init_collection], given the meta that [collection_factory]
    returned. *)
Definition init_collection (collection_meta : CollectionMeta)
    (cls : DocumentClass) : DocumentClass :=
  let cls := setattr_class "CollectionMeta" (meta_attribute collection_meta)
               cls in
  foldl (fun cls kv =>
           setattr_class (fst kv) (expression_field (storage_path (snd kv)))
             cls)
        cls (map_to_list (__fields__ cls)).

(** [Document._get_collection_meta]: [getattr(cls, "CollectionMeta",
    None)], and the exception when it is [None]. *)
Definition _get_collection_meta (cls : DocumentClass)
  : class_exn + class_attribute :=
  match attributes cls !! "CollectionMeta" with
  | None => inl CollectionWasNotInitialized
  | Some collection_meta => inr collection_meta
  end.

(** Modelled from the spec: attribute access on an [ExpressionField] of
    [odm/fields.py], which is not part of the sources at hand. It
    produces a new reference whose path is the dotted concatenation. *)
Definition ExpressionField_getattr (path item : string) : string :=
  path +:+ "." +:+ item.

(** [Document.get_motor_collection]: the [motor_collection] attribute of
    what [_get_collection_meta] returns. *)
Definition get_motor_collection (cls : DocumentClass)
  : class_exn + (AsyncIOMotorCollection + string) :=
  match _get_collection_meta cls with
  | inl e => inl e
  | inr (meta_attribute m) => inr (inl (motor_collection m))
  | inr (expression_field path) =>
      inr (inr (ExpressionField_getattr path "motor_collection"))
  end.

(** What [Document.__init__] raises. *)
Inductive init_exn : Type :=
| init_ValidationError (msg : string)
| init_CollectionWasNotInitialized.

(** [Document.__init__]: the pydantic initialisation, then the call of
    [get_motor_collection], whose result is dropped. *)
Definition __init__ `{DocumentModel} (cls : DocumentClass) (data : record)
  : init_exn + Document :=
  match parse_obj data with
  | inl e => inl (init_ValidationError e)
  | inr self =>
      match get_motor_collection cls with
      | inl CollectionWasNotInitialized =>
          inl init_CollectionWasNotInitialized
      | inr _ => inr self
      end
  end.

(** The fields of the [Note] class and the class before its
    initialisation. *)
Definition Note_class : DocumentClass :=
  {| __fields__ :=
       <["id" := {| name := "id"; alias := "_id" |}]>
         (<["title" := {| name := "title"; alias := "title" |}]> ∅);
     attributes := ∅ |}.

End Documents.

(** Running a computation: unfold the monad and the primitive accesses
    to the state. *)
Ltac run :=
  repeat (unfold mbind, mret, SE_bind, SE_ret, log, set_records, gets,
            modify, raise, await, this, setattr in *;
          cbn beta iota zeta delta [fst snd records last_oid trace id fields]
            in *).

(** * Properties *)

(** ** Operators *)

(** The scenarios of the design document. *)
Example All_scenario :
  query (All "results" [VInt 80; VInt 85])
  = [("results", VDict [("$all", VList [VInt 80; VInt 85])])].
Proof. reflexivity. Qed.

Example Size_scenario :
  query (Size "results" 2) = [("results", VDict [("$size", VInt 2)])].
Proof. reflexivity. Qed.

(** C6. For every field reference and operand the array operators
    render the documented fragments: [All(field, values)] renders
    [{field: {"$all": values}}], [ElemMatch(field, expr)] renders
    [{field: {"$elemMatch": expr}}] and [Size(field, n)] renders
    [{field: {"$size": n}}]. *)
Theorem array_operators_render :
  forall (field : string) (values : list value) (expression : dict) (num : Z),
    query (All field values) = [(field, VDict [("$all", VList values)])]
    /\ query (ElemMatch field expression)
       = [(field, VDict [("$elemMatch", VDict expression)])]
    /\ query (Size field num) = [(field, VDict [("$size", VInt num)])].
Proof. intros; repeat split. Qed.

Lemma query_of_held_state (op : operator) :
  query op
  = let '(k, field, operand) := held_state op in
    [(field, VDict [(keyword_name k, operand)])].
Proof. destruct op; reflexivity. Qed.

(** *** The getter on the store of objects *)

(** A value read in a store is read the same in every store that keeps
    the objects of the first. *)
Lemma reify_mono (n : nat) (h h' : heap) :
  (forall l o, h !! l = Some o -> h' !! l = Some o) ->
  forall (v : hval) (x : value),
    reify n h v = Some x -> reify n h' v = Some x.
Proof.
  intros Hkeep. induction n as [|n IH]; intros v x;
    destruct v as [| | | | |l]; cbn; try (intros; assumption).
  destruct (h !! l) as [[items|entries|cls f o]|] eqn:Hl;
    try discriminate; rewrite (Hkeep _ _ Hl).
  - intros (vs & Hvs & ->)%fmap_Some. apply fmap_Some. exists vs.
    split; [|reflexivity]. apply mapM_Some. apply mapM_Some in Hvs.
    eapply Forall2_impl; [exact Hvs|]. intros a b Hab. now apply IH.
  - intros (vs & Hvs & ->)%fmap_Some. apply fmap_Some. exists vs.
    split; [|reflexivity]. apply mapM_Some. apply mapM_Some in Hvs.
    eapply Forall2_impl; [exact Hvs|]. intros [k a] b. cbn [fst snd].
    intros (y & Hy & ->)%fmap_Some. apply fmap_Some. exists y.
    split; [now apply IH|reflexivity].
Qed.

Lemma alloc_fresh (h : heap) : h !! fresh (dom h) = None.
Proof. apply not_elem_of_dom, is_fresh. Qed.

Lemma insert_keeps (h : heap) (l0 : loc) (o0 : hobj) :
  h !! l0 = None ->
  forall l o, h !! l = Some o -> <[l0 := o0]> h !! l = Some o.
Proof.
  intros Hnone l o Hl. rewrite lookup_insert_ne; [exact Hl|].
  intros ->. congruence.
Qed.

(** One run of the getter on an operator: two objects are allocated, nothing else is touched, the inner dict holds
    the operator's own operand, and the value of the result is the
    fragment of the held values. *)
Lemma query_property_run (n : nat) (h : heap) (self : loc) (cls : keyword)
    (f : string) (operand : hval) (v : value) :
  h !! self = Some (HOperator cls f operand) ->
  reify n h operand = Some v ->
  exists (inner outer : loc) (h' : heap),
    query_property self h = Some (HRef outer, h')
    /\ (forall l o, h !! l = Some o -> h' !! l = Some o)
    /\ h !! inner = None
    /\ h !! outer = None
    /\ h' !! inner = Some (HDict [(keyword_name cls, operand)])
    /\ h' !! outer = Some (HDict [(f, HRef inner)])
    /\ reify (S (S n)) h' (HRef outer)
       = Some (VDict [(f, VDict [(keyword_name cls, v)])]).
Proof.
  intros Hself Hv.
  set (inner := fresh (dom h)).
  set (h1 := <[inner := HDict [(keyword_name cls, operand)]]> h).
  set (outer := fresh (dom h1)).
  set (h2 := <[outer := HDict [(f, HRef inner)]]> h1).
  assert (Hinner : h !! inner = None) by apply alloc_fresh.
  assert (Houter1 : h1 !! outer = None) by apply alloc_fresh.
  assert (Hne : outer <> inner).
  { intros Heq. rewrite Heq in Houter1. subst h1.
    rewrite lookup_insert_eq in Houter1. discriminate. }
  assert (Houter : h !! outer = None).
  { subst h1. now rewrite lookup_insert_ne in Houter1 by congruence. }
  assert (Hkeep1 : forall l o, h !! l = Some o -> h1 !! l = Some o)
    by now apply insert_keeps.
  assert (Hkeep2 : forall l o, h1 !! l = Some o -> h2 !! l = Some o)
    by now apply insert_keeps.
  assert (Hin2 : h2 !! inner
                 = Some (HDict [(keyword_name cls, operand)])).
  { apply Hkeep2. subst h1. apply lookup_insert_eq. }
  assert (Hout2 : h2 !! outer = Some (HDict [(f, HRef inner)])).
  { subst h2. apply lookup_insert_eq. }
  exists inner, outer, h2. split.
  { unfold query_property. rewrite Hself. reflexivity. }
  split; [intros l o Hl; now apply Hkeep2, Hkeep1|].
  split; [exact Hinner|]. split; [exact Houter|].
  split; [exact Hin2|]. split; [exact Hout2|].
  assert (Hv2 : reify n h2 operand = Some v).
  { eapply reify_mono; [|exact Hv].
    intros l o Hl. now apply Hkeep2, Hkeep1. }
  cbn [reify]. rewrite Hout2. cbn. rewrite Hin2. cbn. rewrite Hv2.
  reflexivity.
Qed.

(** C9. The fragment an operator renders is a function of the field and
    operand values it holds, and rendering modifies nothing: the getter
    leaves every object of the store as it was, the operator and its
    operand among them, and only allocates the two dicts of the fragment;
    the value of the fragment is determined by the class, the field and
    the value of the operand, so that rendering the operator again, or
    rendering another operator that holds equal values, yields an equal
    fragment. *)
Theorem query_property_pure :
  forall (n : nat) (h : heap) (self : loc) (cls : keyword) (f : string)
         (operand : hval) (v : value),
    h !! self = Some (HOperator cls f operand) ->
    reify n h operand = Some v ->
    let fragment := VDict [(f, VDict [(keyword_name cls, v)])] in
    (forall op : operator,
       held_state op = (cls, f, v) -> fragment = VDict (query op))
    /\ exists (inner outer : loc) (h' : heap),
         query_property self h = Some (HRef outer, h')
         /\ (forall l o, h !! l = Some o -> h' !! l = Some o)
         /\ h !! inner = None
         /\ h !! outer = None
         /\ h' !! inner = Some (HDict [(keyword_name cls, operand)])
         /\ h' !! outer = Some (HDict [(f, HRef inner)])
         /\ reify (S (S n)) h' (HRef outer) = Some fragment
         /\ (exists (outer' : loc) (h'' : heap),
               query_property self h' = Some (HRef outer', h'')
               /\ outer' <> outer
               /\ reify (S (S n)) h'' (HRef outer') = Some fragment
               /\ reify (S (S n)) h'' (HRef outer) = Some fragment)
         /\ (forall (other : loc) (operand' : hval),
               h !! other = Some (HOperator cls f operand') ->
               reify n h operand' = Some v ->
               exists (outer' : loc) (h'' : heap),
                 query_property other h = Some (HRef outer', h'')
                 /\ reify (S (S n)) h'' (HRef outer') = Some fragment).
Proof.
  intros n h self cls f operand v Hself Hv fragment. split.
  { intros op Hheld. subst fragment.
    rewrite query_of_held_state, Hheld. reflexivity. }
  destruct (query_property_run n h self cls f operand v Hself Hv)
    as (inner & outer & h' & Hrun & Hkeep & Hinner & Houter & Hin' & Hout'
        & Hfrag).
  exists inner, outer, h'. repeat (split; [assumption|]). split.
  - destruct (query_property_run n h' self cls f operand v
                (Hkeep _ _ Hself) (reify_mono n h h' Hkeep _ _ Hv))
      as (inner2 & outer2 & h'' & Hrun2 & Hkeep2 & _ & Houter2 & _ & _
          & Hfrag2).
    exists outer2, h''. split; [exact Hrun2|]. split.
    + intros ->. congruence.
    + split; [exact Hfrag2|]. now apply (reify_mono _ h' h'' Hkeep2).
  - intros other operand' Hother Hv'.
    destruct (query_property_run n h other cls f operand' v Hother Hv')
      as (_ & outer2 & h'' & Hrun2 & _ & _ & _ & _ & _ & Hfrag2).
    exists outer2, h''. split; assumption.
Qed.

Lemma query_property_pure_witness :
  results_heap !! 2%positive
  = Some (HOperator kw_all "results" (HRef 1%positive))
  /\ reify 1 results_heap (HRef 1%positive) = Some (VList [VInt 80; VInt 85])
  /\ exists (outer : loc) (h' : heap),
       query_property 2%positive results_heap = Some (HRef outer, h')
       /\ h' !! 1%positive = Some (HList [HInt 80; HInt 85])
       /\ h' !! 2%positive
          = Some (HOperator kw_all "results" (HRef 1%positive))
       /\ reify 3 h' (HRef outer)
          = Some (VDict (query (All "results" [VInt 80; VInt 85]))).
Proof.
  assert (Hself : results_heap !! 2%positive
                  = Some (HOperator kw_all "results"
                            (HRef 1%positive))) by reflexivity.
  assert (Hv : reify 1 results_heap (HRef 1%positive)
               = Some (VList [VInt 80; VInt 85])) by reflexivity.
  split; [exact Hself|]. split; [exact Hv|].
  destruct (query_property_pure 1 results_heap 2%positive kw_all "results"
              (HRef 1%positive) (VList [VInt 80; VInt 85]) Hself Hv)
    as (_ & inner & outer & h' & Hrun & Hkeep & _ & _ & _ & _ & Hfrag & _).
  exists outer, h'. split; [exact Hrun|].
  split; [now apply Hkeep|]. split; [now apply Hkeep|exact Hfrag].
Defined.

Example query_property_results :
  operator_init kw_all "results" (HRef 1%positive)
    (<[1%positive := HList [HInt 80; HInt 85]]> ∅)
  = (2%positive, results_heap)
  /\ exists h' : heap,
       query_property 2%positive results_heap = Some (HRef 4%positive, h')
       /\ h' !! 3%positive = Some (HDict [("$all", HRef 1%positive)])
       /\ h' !! 4%positive = Some (HDict [("results", HRef 3%positive)]).
Proof. split; [reflexivity|]. eexists. repeat split; reflexivity. Qed.

Lemma query_single_key (op : operator) :
  exists (k : string) (v : value), query op = [(k, v)].
Proof. destruct op; eexists _, _; reflexivity. Qed.

Lemma to_dict_operator (op : operator) : to_dict op = inr (query op).
Proof.
  destruct (query_single_key op) as (k & v & Hq).
  unfold to_dict. cbn. unfold op_iter. rewrite Hq. cbn.
  unfold op_getitem. rewrite Hq. cbn. now rewrite String.eqb_refl.
Qed.

(** C10. An operator is a mapping equal to its rendered fragment:
    [op[k]] is [op.query[k]] for every key, iterating the operator
    yields the keys of the fragment, its length is the fragment's, and so
    the dict read off the operator through the protocol, which is what a
    filter argument denotes, is the fragment. *)
Theorem operator_is_mapping :
  forall (op : operator) (k : string),
    getitem op k = getitem (query op) k
    /\ iter op = iter (query op)
    /\ len op = len (query op)
    /\ to_dict op = inr (query op)
    /\ encode (Op op) = encode (Raw (query op)).
Proof.
  intros op k. repeat split. all: apply to_dict_operator.
Qed.

(** ** Aggregation *)

Lemma spec_match_stage_eq (flt : dict) :
  option_list (spec_match_stage flt)
  = match flt with
    | [] => []
    | _ :: _ => [VDict [("$match", VDict flt)]]
    end.
Proof.
  unfold spec_match_stage. destruct flt as [|e flt]; [reflexivity|].
  destruct (decide (e :: flt = [])); [discriminate|reflexivity].
Qed.

(** C3. The pipeline an aggregation query sends to the store is a match
    stage built from the accumulated filter, left out when the filter is
    empty, then the caller's stages in their order, then a project stage
    built from the projection schema's fields, left out when no
    projection schema is set. *)
Theorem aggregation_pipeline_shape :
  forall q : AggregationQuery,
    get_aggregation_pipeline q = spec_pipeline q
    /\ motor_cursor q = aggregate_call (spec_pipeline q) (session q).
Proof.
  assert (Heq : forall q, get_aggregation_pipeline q = spec_pipeline q).
  { intros q. unfold get_aggregation_pipeline, spec_pipeline.
    rewrite spec_match_stage_eq.
    destruct (projection_model q); reflexivity. }
  intros q. split; [apply Heq|]. unfold motor_cursor. now rewrite Heq.
Qed.

(** X18. [Document.aggregate] starts from [find_all], whose filter is empty:
    its pipeline has no match stage. *)
Lemma aggregate_pipeline `{DocumentModel} (stages : list value)
    (model : option ProjectionModel) (s : option ClientSession) :
  get_aggregation_pipeline (aggregate stages model s)
  = stages ++ option_list (spec_project_stage model)
  /\ session (aggregate stages model s) = s.
Proof.
  split; [|destruct s; reflexivity].
  unfold get_aggregation_pipeline. cbn. destruct model; reflexivity.
Qed.

(** ** The collection *)

Lemma has_id_spec (i : option ObjectId) (r : record) :
  has_id i r = true <-> rec_id r = i.
Proof.
  unfold has_id. destruct (rec_id r) as [a|], i as [b|]; cbn.
  - rewrite N.eqb_eq. split; congruence.
  - split; discriminate.
  - split; discriminate.
  - split; reflexivity.
Qed.

Lemma matches_by_id (i : option ObjectId) (r : record) :
  matches [("_id", id_value i)] r = has_id i r.
Proof.
  unfold matches, has_id. cbn. rewrite andb_true_r.
  destruct i; reflexivity.
Qed.

Lemma matches_empty (r : record) : matches [] r = true.
Proof. reflexivity. Qed.

Lemma selected_empty (rs : list record) : selected [] rs = rs.
Proof.
  unfold selected. induction rs as [|r rs IH]; cbn; [reflexivity|].
  now rewrite IH.
Qed.

Lemma selected_by_id (i : option ObjectId) (rs : list record) :
  selected [("_id", id_value i)] rs = List.filter (has_id i) rs.
Proof.
  unfold selected. apply List.filter_ext. intros r. apply matches_by_id.
Qed.

Lemma on_first_unselected (flt : dict) (f : record -> record)
    (rs : list record) :
  head (selected flt rs) = None -> on_first flt f rs = rs.
Proof.
  unfold selected. induction rs as [|r rs IH]; cbn; [reflexivity|].
  destruct (matches flt r); cbn; intros Hnone; [discriminate|].
  now rewrite IH.
Qed.

(** ** Insert and replace *)

(** C2. [insert] on an entity whose identity is set raises
    [DocumentAlreadyCreated] and issues no store call. On an entity
    without identity it sends the fields without the identity field to
    the store, assigns the identity the store generated back onto the
    entity, so that the identity is not null, and returns that entity; a
    second [insert] on it is rejected. *)
Theorem insert_contract :
  forall (self : Document) (session : option ClientSession) (w : collection),
    (forall o, id self = Some o ->
       insert session (self, w) = (inl DocumentAlreadyCreated, (self, w)))
    /\ (id self = None ->
        let o := fresh_oid w in
        let self' := {| id := Some o; fields := fields self |} in
        let w' :=
          {| records := records w ++
                        [{| rec_id := Some o; rec_body := fields self |}];
             last_oid := o;
             trace := trace w ++
                      [insert_one_call
                         {| payload_id := None;
                            payload_body := fields self |} session] |} in
        insert session (self, w) = (inr self', (self', w'))
        /\ insert session (self', w')
           = (inl DocumentAlreadyCreated, (self', w'))).
Proof.
  intros [i f] session w. cbn [id fields]. split.
  - intros o ->. reflexivity.
  - intros ->. cbn zeta. split; reflexivity.
Qed.

Lemma insert_contract_witness :
  id unsaved_note = None
  /\ insert None (unsaved_note, new_collection)
     = (inr {| id := Some 1%N; fields := note_fields "0" |},
        ({| id := Some 1%N; fields := note_fields "0" |},
         {| records := [{| rec_id := Some 1%N;
                           rec_body := note_fields "0" |}];
            last_oid := 1%N;
            trace := [insert_one_call
                        {| payload_id := None;
                           payload_body := note_fields "0" |} None] |}))
  /\ fst (insert None
            ({| id := Some 1%N; fields := note_fields "0" |},
             {| records := [{| rec_id := Some 1%N;
                               rec_body := note_fields "0" |}];
                last_oid := 1%N;
                trace := [insert_one_call
                            {| payload_id := None;
                               payload_body := note_fields "0" |} None] |}))
     = inl DocumentAlreadyCreated.
Proof.
  split; [reflexivity|].
  destruct (proj2 (insert_contract unsaved_note None new_collection) eq_refl)
    as (Hfirst & Hsecond).
  split; [exact Hfirst|]. cbn zeta in Hsecond.
  exact (f_equal fst Hsecond).
Defined.

Example insert_first_note :
  fst (insert None (unsaved_note, new_collection))
  = inr {| id := Some 1%N; fields := note_fields "0" |}.
Proof. reflexivity. Qed.

Lemma set_session_None (s : option ClientSession) : set_session s None = s.
Proof. destruct s; reflexivity. Qed.

Lemma on_first_split (flt : dict) (f : record -> record)
    (pre post : list record) (r : record) :
  Forall (fun r' => matches flt r' = false) pre ->
  matches flt r = true ->
  on_first flt f (pre ++ r :: post) = pre ++ f r :: post.
Proof.
  intros Hpre Hr. induction Hpre as [|r' pre Hr' _ IH]; cbn.
  - now rewrite Hr.
  - now rewrite Hr', IH.
Qed.

Lemma motor_replace_one_run (flt : dict) (replacement : gmap string value)
    (s : option ClientSession) (w : collection) :
  exists n : nat,
    motor_replace_one flt replacement s w
    = (inr n,
       {| records :=
            on_first flt
              (fun r => {| rec_id := rec_id r; rec_body := replacement |})
              (records w);
          last_oid := last_oid w;
          trace := trace w ++ [replace_one_call flt replacement s] |}).
Proof.
  unfold motor_replace_one. run.
  destruct (head (selected flt (records w))) eqn:Hsel; run.
  - eexists. reflexivity.
  - rewrite on_first_unselected by exact Hsel.
    eexists. reflexivity.
Qed.

(** C8. [replace] on an entity whose identity is unset raises
    [DocumentWasNotSaved] before any store call. On an entity with its
    identity set it performs one full-document replacement keyed by that
    identity, which puts the entity's fields in place of the stored
    record's and keeps its identity, and returns the entity. *)
Theorem replace_contract :
  forall (self : Document) (session : option ClientSession) (w : collection),
    (id self = None ->
       replace session (self, w) = (inl DocumentWasNotSaved, (self, w)))
    /\ (forall o, id self = Some o ->
        let replaced (r : record) :=
          {| rec_id := rec_id r; rec_body := fields self |} in
        replace session (self, w)
        = (inr self,
           (self,
            {| records := on_first [("_id", VOid o)] replaced (records w);
               last_oid := last_oid w;
               trace := trace w ++
                        [replace_one_call [("_id", VOid o)] (fields self)
                           session] |}))
        /\ forall pre r post,
             records w = pre ++ r :: post ->
             Forall (fun r' => rec_id r' <> Some o) pre ->
             rec_id r = Some o ->
             on_first [("_id", VOid o)] replaced (records w)
             = pre ++ {| rec_id := Some o; rec_body := fields self |} :: post).
Proof.
  intros [i f] session w. cbn [id fields]. split.
  - intros ->. reflexivity.
  - intros o ->. cbn zeta. split.
    + unfold replace, FindOne_replace_one, find_one. run. cbn.
      rewrite set_session_None.
      destruct (motor_replace_one_run [("_id", VOid o)] f session w)
        as (n & ->).
      reflexivity.
    + intros pre r post -> Hpre Hr.
      rewrite on_first_split.
      * now rewrite Hr.
      * eapply Forall_impl; [exact Hpre|]. intros r' Hne. cbn beta in Hne.
        change (VOid o) with (id_value (Some o)). rewrite matches_by_id.
        destruct (has_id (Some o) r') eqn:Hhas; [|reflexivity].
        apply has_id_spec in Hhas. contradiction.
      * change (VOid o) with (id_value (Some o)). rewrite matches_by_id.
        now apply has_id_spec.
Qed.

Lemma replace_contract_witness :
  id {| id := Some 2%N; fields := note_fields "1" |} = Some 2%N
  /\ fst (replace None
            ({| id := Some 2%N; fields := note_fields "1" |}, three_notes))
     = inr {| id := Some 2%N; fields := note_fields "1" |}
  /\ map rec_body
       (records
          (snd (snd (replace None
                       ({| id := Some 2%N; fields := note_fields "1" |},
                        three_notes)))))
     = [note_fields "0"; note_fields "1"; note_fields "2"].
Proof.
  split; [reflexivity|].
  destruct (proj2 (replace_contract
                     {| id := Some 2%N; fields := note_fields "1" |}
                     None three_notes) 2%N eq_refl) as [Hrun _].
  rewrite Hrun. split; reflexivity.
Defined.

(** ** Reading by identity *)

Lemma head_filter_split {A : Type} (P : A -> bool) (pre post : list A)
    (x : A) :
  Forall (fun y => P y = false) pre ->
  P x = true ->
  head (List.filter P (pre ++ x :: post)) = Some x.
Proof.
  intros Hpre Hx. induction Hpre as [|y pre Hy _ IH]; cbn.
  - now rewrite Hx.
  - now rewrite Hy.
Qed.

Lemma head_filter_none {A : Type} (P : A -> bool) (l : list A) :
  Forall (fun y => P y = false) l -> head (List.filter P l) = None.
Proof.
  intros Hl. induction Hl as [|y l Hy _ IH]; cbn; [reflexivity|].
  now rewrite Hy.
Qed.

Lemma other_id (i : option ObjectId) (l : list record) :
  Forall (fun r => rec_id r <> i) l ->
  Forall (fun r => has_id i r = false) l.
Proof.
  intros Hl. eapply Forall_impl; [exact Hl|]. intros r Hne. cbn beta in Hne.
  destruct (has_id i r) eqn:Hhas; [|reflexivity].
  apply has_id_spec in Hhas. contradiction.
Qed.

Lemma get_run `{DocumentModel} (document_id : option ObjectId)
    (session : option ClientSession) (w : collection) :
  get document_id session w
  = (match head (List.filter (has_id document_id) (records w)) with
     | None => inr None
     | Some r =>
         match parse_obj r with
         | inl e => inl (ValidationError e)
         | inr d => inr (Some d)
         end
     end,
     {| records := records w;
        last_oid := last_oid w;
        trace := trace w ++
                 [find_one_call [("_id", id_value document_id)] session] |}).
Proof.
  unfold get, FindOne_await, find_one, motor_find_one. cbn.
  rewrite set_session_None. run. rewrite selected_by_id.
  destruct (head (List.filter (has_id document_id) (records w)));
    [|reflexivity].
  destruct (parse_obj r); reflexivity.
Qed.

(** C7. For every identity and session, [get(id)] is
    [find_one({"_id": id})] run with that session: the two are the same
    computation. It issues one read, with the session; it returns nothing
    when no record has the identity, and the entity mapped from the
    record that has it otherwise. *)
Theorem get_is_find_one `{DocumentModel} :
  forall (document_id : option ObjectId) (session : option ClientSession)
         (w : collection),
    get document_id session w
    = FindOne_await
        (find_one [Raw [("_id", id_value document_id)]] None session) w
    /\ snd (get document_id session w)
       = {| records := records w;
            last_oid := last_oid w;
            trace := trace w ++
                     [find_one_call [("_id", id_value document_id)]
                        session] |}
    /\ (Forall (fun r => rec_id r <> document_id) (records w) ->
        fst (get document_id session w) = inr None)
    /\ (forall pre r post d,
          records w = pre ++ r :: post ->
          Forall (fun r' => rec_id r' <> document_id) pre ->
          rec_id r = document_id ->
          parse_obj r = inr d ->
          fst (get document_id session w) = inr (Some d)).
Proof.
  intros document_id session w. split; [reflexivity|].
  rewrite get_run. cbn [fst snd]. split; [reflexivity|]. split.
  - intros Habsent. now rewrite head_filter_none by now apply other_id.
  - intros pre r post d -> Hpre Hr Hd.
    rewrite head_filter_split.
    + now rewrite Hd.
    + now apply other_id.
    + now apply has_id_spec.
Qed.

Lemma get_is_find_one_witness :
  Forall (fun r => rec_id r <> Some 7%N) (records three_notes)
  /\ fst (get (H := Note) (Some 7%N) (Some 4) three_notes) = inr None
  /\ fst (get (H := Note) (Some 3%N) (Some 4) three_notes)
     = inr (Some {| id := Some 3%N; fields := note_fields "2" |}).
Proof.
  assert (Habsent :
    Forall (fun r => rec_id r <> Some 7%N) (records three_notes)).
  { repeat constructor; discriminate. }
  split; [exact Habsent|].
  destruct (get_is_find_one (H := Note) (Some 7%N) (Some 4) three_notes)
    as (_ & _ & Hnone & _).
  destruct (get_is_find_one (H := Note) (Some 3%N) (Some 4) three_notes)
    as (_ & _ & _ & Hsome).
  split; [exact (Hnone Habsent)|].
  apply (Hsome [ {| rec_id := Some 1%N; rec_body := note_fields "0" |};
                 {| rec_id := Some 2%N; rec_body := old_note_fields "1" |} ]
               {| rec_id := Some 3%N; rec_body := note_fields "2" |} []).
  - reflexivity.
  - repeat constructor; discriminate.
  - reflexivity.
  - reflexivity.
Defined.

(** ** Inspection *)

Lemma spec_errors_cons `{DocumentModel} (r : record) (rs : list record) :
  spec_errors (r :: rs)
  = match parse_obj r with
    | inl e => [{| document_id := rec_id r; error := e |}]
    | inr _ => []
    end ++ spec_errors rs.
Proof. reflexivity. Qed.

(** The loop over records each of which validates or has an identity:
    no entry is refused, and the result grows by the entries of the
    records that fail. *)
Lemma inspect_documents_fold `{DocumentModel} (rs : list record)
    (res : InspectionResult) :
  Forall (fun r => conforms r \/ rec_id r <> None) rs ->
  inspect_documents rs res
  = inr {| status := match spec_errors rs with
                     | [] => status res
                     | _ :: _ => FAIL
                     end;
           errors := errors res ++ spec_errors rs |}.
Proof.
  intros Hrs. revert res. induction Hrs as [|r rs Hr _ IH]; intros res.
  - cbn. rewrite app_nil_r. now destruct res.
  - cbn [inspect_documents]. rewrite spec_errors_cons.
    unfold inspect_document.
    destruct (parse_obj r) as [e|d] eqn:Hparse.
    + destruct Hr as [[d Hd]|Hid]; [congruence|].
      destruct (rec_id r) as [o|] eqn:Ho; [|contradiction].
      cbn [InspectionError_init]. rewrite IH. cbn [status errors app].
      rewrite <- app_assoc. cbn [app].
      destruct (spec_errors rs), (status res); reflexivity.
    + rewrite IH. reflexivity.
Qed.

(** The loop is left at the first record that fails validation and has
    a null identity. *)
Lemma inspect_documents_raise `{DocumentModel} (pre post : list record)
    (bad : record) (e : string) (res : InspectionResult) :
  Forall (fun r => conforms r \/ rec_id r <> None) pre ->
  parse_obj bad = inl e ->
  rec_id bad = None ->
  exists msg : string,
    InspectionError_init None e = inl msg
    /\ inspect_documents (pre ++ bad :: post) res
       = inl (ValidationError msg).
Proof.
  intros Hpre Hbad Hid. eexists. split; [reflexivity|].
  revert res. induction Hpre as [|r rs Hr Hrs IH]; intros res.
  - cbn [app inspect_documents]. unfold inspect_document.
    rewrite Hbad, Hid. reflexivity.
  - cbn [app inspect_documents].
    pose proof (inspect_documents_fold [r] res
                  (Forall_cons_2 _ _ _ Hr (Forall_nil_2 _))) as Hone.
    cbn [inspect_documents] in Hone.
    destruct (inspect_document res r) as [e'|res']; [discriminate|].
    apply IH.
Qed.

Lemma spec_errors_conforming `{DocumentModel} (rs : list record) :
  spec_errors rs = [] <-> Forall conforms rs.
Proof.
  induction rs as [|r rs IH].
  - split; [constructor|reflexivity].
  - rewrite spec_errors_cons.
    destruct (parse_obj r) as [e|d] eqn:Hr; cbn [app].
    + split; [discriminate|]. intros Hall.
      inversion Hall as [|? ? [d Hd] _]. congruence.
    + rewrite IH. split.
      * intros Hrs. constructor; [now exists d|exact Hrs].
      * intros Hall. now inversion Hall.
Qed.

Lemma spec_errors_app `{DocumentModel} (l1 l2 : list record) :
  spec_errors (l1 ++ l2) = spec_errors l1 ++ spec_errors l2.
Proof. unfold spec_errors. apply flat_map_app. Qed.

Lemma inspect_identified `{DocumentModel}
    (session : option ClientSession) (w : collection) :
  Forall (fun r => conforms r \/ rec_id r <> None) (records w) ->
  inspect_collection session w
  = (inr {| status := match spec_errors (records w) with
                      | [] => OK
                      | _ :: _ => FAIL
                      end;
            errors := spec_errors (records w) |},
     {| records := records w;
        last_oid := last_oid w;
        trace := trace w ++ [find_call [] session] |}).
Proof.
  intros Hw. unfold inspect_collection, motor_find. run.
  rewrite selected_empty, inspect_documents_fold by exact Hw. reflexivity.
Qed.


(** The records a null identity leaves out: at the first record that
    fails validation and has a null identity, the entry cannot be built,
    [InspectionError] refuses the identity, and the inspection is left
    with that [ValidationError], the records unchanged. *)
Lemma inspect_collection_null_id `{DocumentModel}
    (session : option ClientSession) (w : collection)
    (pre post : list record) (bad : record) (e : string) :
  records w = pre ++ bad :: post ->
  Forall (fun r => conforms r \/ rec_id r <> None) pre ->
  parse_obj bad = inl e ->
  rec_id bad = None ->
  exists msg : string,
    InspectionError_init None e = inl msg
    /\ inspect_collection session w
       = (inl (ValidationError msg),
          {| records := records w;
             last_oid := last_oid w;
             trace := trace w ++ [find_call [] session] |}).
Proof.
  intros Hrecs Hpre Hbad Hid.
  destruct (inspect_documents_raise pre post bad e
              {| status := OK; errors := [] |} Hpre Hbad Hid)
    as (msg & Hmsg & Hraise).
  exists msg. split; [exact Hmsg|]. rewrite <- Hrecs in Hraise.
  unfold inspect_collection, motor_find. run.
  rewrite selected_empty, Hraise. reflexivity.
Qed.

Example inspect_ten_notes :
  fst (inspect_collection (H := Note) None ten_notes)
  = inr {| status := FAIL;
           errors :=
             [{| document_id := Some 5%N;
                 error := validation_error_text "Note" "title"
                            "field required (type=value_error.missing)" |}]
        |}.
Proof. reflexivity. Qed.



(** ** Replacing many *)

Lemma matches_in_ids (ids : list (option ObjectId)) (r : record) :
  matches (In_query "_id" (map id_value ids)) r
  = bool_decide (rec_id r ∈ ids).
Proof.
  unfold matches, In_query. cbn. rewrite andb_true_r.
  induction ids as [|i ids IH]; cbn [map existsb].
  - symmetry. apply bool_decide_eq_false_2. apply not_elem_of_nil.
  - rewrite IH. fold (has_id i r).
    destruct (has_id i r) eqn:Hhas; cbn [orb].
    + symmetry. apply bool_decide_eq_true_2.
      apply has_id_spec in Hhas. rewrite Hhas. apply list_elem_of_here.
    + apply bool_decide_ext. rewrite elem_of_cons.
      assert (rec_id r <> i).
      { intros Heq. apply has_id_spec in Heq. congruence. }
      tauto.
Qed.

Lemma selected_in_ids (ids : list (option ObjectId)) (rs : list record) :
  selected (In_query "_id" (map id_value ids)) rs = stored_among ids rs.
Proof.
  unfold selected, stored_among. apply List.filter_ext. intros r.
  apply matches_in_ids.
Qed.

Lemma rejected_in_ids (ids : list (option ObjectId)) (rs : list record) :
  rejected (In_query "_id" (map id_value ids)) rs = stored_apart ids rs.
Proof.
  unfold rejected, stored_apart. apply List.filter_ext. intros r.
  now rewrite matches_in_ids.
Qed.

Lemma elem_of_map {A B : Type} (f : A -> B) (l : list A) (x : A) :
  x ∈ l -> f x ∈ map f l.
Proof.
  induction 1; cbn; [apply list_elem_of_here|].
  now apply list_elem_of_further.
Qed.

Lemma elem_of_filter_ids (P : record -> bool) (rs : list record)
    (i : option ObjectId) :
  i ∈ map rec_id (List.filter P rs) ->
  exists r, r ∈ rs /\ rec_id r = i /\ P r = true.
Proof.
  induction rs as [|r rs IH]; cbn.
  - intros Hin. now apply elem_of_nil in Hin.
  - destruct (P r) eqn:HP; cbn.
    + rewrite elem_of_cons. intros [->|Hin].
      * exists r. split; [apply list_elem_of_here|]. now split.
      * destruct (IH Hin) as (r' & Hr' & Hid & HPr').
        exists r'. split; [now apply list_elem_of_further|]. now split.
    + intros Hin. destruct (IH Hin) as (r' & Hr' & Hid & HPr').
      exists r'. split; [now apply list_elem_of_further|]. now split.
Qed.

Lemma NoDup_filter_ids (P : record -> bool) (rs : list record) :
  NoDup (map rec_id rs) -> NoDup (map rec_id (List.filter P rs)).
Proof.
  induction rs as [|r rs IH]; cbn; [intros; constructor|].
  rewrite NoDup_cons. intros [Hr Hrs].
  destruct (P r); cbn; [|now apply IH].
  apply NoDup_cons. split; [|now apply IH].
  intros Hin. apply elem_of_filter_ids in Hin as (r' & Hr' & Hid & _).
  apply Hr. rewrite <- Hid. now apply elem_of_map.
Qed.

(** When the identities stored are pairwise distinct and as many records
    are found as identities are asked for, the identities asked for are
    pairwise distinct and all of them are stored. *)
Lemma all_found (ids : list (option ObjectId)) (rs : list record) :
  NoDup (map rec_id rs) ->
  length (stored_among ids rs) = length ids ->
  NoDup ids /\ forall i, i ∈ ids -> i ∈ map rec_id rs.
Proof.
  intros Hrs Hlen.
  assert (Hperm : map rec_id (stored_among ids rs) ≡ₚ ids).
  { apply submseteq_length_Permutation.
    - apply NoDup_submseteq; [now apply NoDup_filter_ids|].
      intros i Hi. apply elem_of_filter_ids in Hi as (r & _ & <- & Hr).
      now apply bool_decide_eq_true_1 in Hr.
    - rewrite length_map. lia. }
  split.
  - rewrite <- Hperm. now apply NoDup_filter_ids.
  - intros i Hi. rewrite <- Hperm in Hi.
    apply elem_of_filter_ids in Hi as (r & Hr & <- & _).
    now apply elem_of_map.
Qed.

Lemma stored_apart_ids (ids : list (option ObjectId)) (rs : list record)
    (i : option ObjectId) :
  i ∈ ids -> i ∉ map rec_id (stored_apart ids rs).
Proof.
  intros Hi Hin. apply elem_of_filter_ids in Hin as (r & _ & <- & Hr).
  apply negb_true_iff, bool_decide_eq_false_1 in Hr. contradiction.
Qed.

Lemma existsb_has_id (i : option ObjectId) (rs : list record) :
  i ∉ map rec_id rs -> existsb (has_id i) rs = false.
Proof.
  induction rs as [|r rs IH]; cbn; [reflexivity|].
  rewrite not_elem_of_cons. intros [Hne Hrs].
  rewrite IH by exact Hrs. rewrite orb_false_r.
  destruct (has_id i r) eqn:Hhas; [|reflexivity].
  apply has_id_spec in Hhas. congruence.
Qed.

(** A bulk write of documents with kept identities succeeds and appends
    them in order when their identities are pairwise distinct and none
    is stored. *)
Lemma write_many_kept (documents : list Document) (rs : list record)
    (lo : ObjectId) (tr : list call) :
  NoDup (map id documents) ->
  (forall i, i ∈ map id documents -> i ∉ map rec_id rs) ->
  write_many (map (dict_by_alias false) documents)
    {| records := rs; last_oid := lo; trace := tr |}
  = (inr (map id documents),
     {| records := rs ++ map as_record documents;
        last_oid := lo; trace := tr |}).
Proof.
  revert rs. induction documents as [|d ds IH]; intros rs Hnd Hfresh.
  - cbn. now rewrite app_nil_r.
  - cbn [map] in *. apply NoDup_cons in Hnd as [Hd Hds].
    cbn [write_many]. run. unfold write_one at 1.
    cbn [payload_id payload_body dict_by_alias records last_oid trace].
    rewrite existsb_has_id by (apply Hfresh, list_elem_of_here).
    rewrite IH.
    + rewrite <- app_assoc. reflexivity.
    + exact Hds.
    + intros i Hi. rewrite map_app, elem_of_app. intros [Hin|Hin].
      * revert Hin. apply Hfresh. now apply list_elem_of_further.
      * cbn in Hin. apply list_elem_of_singleton in Hin. congruence.
Qed.

Lemma count_by_ids (documents : list Document) (w : collection) :
  let ids := map id documents in
  FindMany_count
    (find [Op (In "_id" (map id_value ids))] None None None None None) w
  = (inr (length (stored_among ids (records w))),
     {| records := records w;
        last_oid := last_oid w;
        trace := trace w ++
                 [count_documents_call (In_query "_id" (map id_value ids))
                    None] |}).
Proof.
  cbn zeta. unfold FindMany_count, find, find_many, motor_count_documents.
  cbn. run. rewrite Nat.sub_0_r. unfold query. cbn [query_getter fst].
  now rewrite selected_in_ids.
Qed.

(** The batch is rejected after the count alone when the count differs
    from the number of documents. *)
Lemma replace_many_rejects (documents : list Document)
    (session : option ClientSession) (w : collection) :
  length (stored_among (map id documents) (records w)) <> length documents ->
  replace_many documents session w
  = (inl (ReplaceError
            "Some of the documents are not exist in the collection"),
     {| records := records w;
        last_oid := last_oid w;
        trace := trace w ++
                 [count_documents_call
                    (In_query "_id" (map id_value (map id documents)))
                    None] |}).
Proof.
  intros Hne. unfold replace_many.
  unfold mbind at 1, SE_bind at 1. rewrite (count_by_ids documents w).
  rewrite length_map. apply Nat.eqb_neq in Hne. rewrite Hne. reflexivity.
Qed.

Lemma motor_insert_many_nonempty (ps : list payload)
    (s : option ClientSession) (w : collection) :
  ps <> [] ->
  motor_insert_many ps s w
  = write_many ps {| records := records w;
                     last_oid := last_oid w;
                     trace := trace w ++ [insert_many_call ps s] |}.
Proof. destruct ps; [contradiction|reflexivity]. Qed.

Lemma write_one_trace (p : payload) (w : collection) :
  trace (snd (write_one p w)) = trace w.
Proof.
  unfold write_one. destruct (payload_id p) as [i|]; [|reflexivity].
  now destruct (existsb (has_id i) (records w)).
Qed.

Lemma write_many_trace (ps : list payload) (w : collection) :
  trace (snd (write_many ps w)) = trace w.
Proof.
  revert w. induction ps as [|p ps IH]; intros w; [reflexivity|].
  cbn [write_many]. unfold mbind at 1, SE_bind at 1.
  pose proof (write_one_trace p w) as Hone.
  destruct (write_one p w) as [[e|i] w1]; cbn [snd] in Hone |- *;
    [exact Hone|].
  unfold mbind at 1, SE_bind at 1. specialize (IH w1).
  destruct (write_many ps w1) as [[e|rest] w2]; cbn in IH |- *;
    now rewrite IH.
Qed.

Lemma motor_insert_many_trace (ps : list payload)
    (s : option ClientSession) (w : collection) :
  trace (snd (motor_insert_many ps s w))
  = trace w ++ [insert_many_call ps s].
Proof.
  destruct ps as [|p ps]; [reflexivity|].
  rewrite motor_insert_many_nonempty by discriminate.
  now rewrite write_many_trace.
Qed.

Lemma stored_apart_nil (rs : list record) : stored_apart [] rs = rs.
Proof.
  unfold stored_apart. induction rs as [|r rs IH]; cbn; [reflexivity|].
  rewrite bool_decide_eq_false_2 by apply not_elem_of_nil. cbn.
  now rewrite IH.
Qed.

(** C1. [replace_many] counts the stored records whose identity is
    among the identities of the documents supplied. When the count
    differs from the number of documents it raises [ReplaceError] having
    issued nothing but that count: no delete, no insert, and the records
    are as they were. Only when the count is the number of documents does
    it delete the records found and insert the documents with their
    identities kept: the run is then the [delete_many] followed by the
    [insert_many] of the documents with their identities. With the
    identities stored pairwise distinct, as the store keeps them, both
    steps succeed on a batch that is not empty and leave the other records
    followed by the documents; the empty batch, whose count is zero as
    its size, deletes nothing and has its insert refused by the driver
    with [TypeError], the records as they were. *)
Theorem replace_many_contract :
  forall (documents : list Document) (session : option ClientSession)
         (w : collection),
    let ids := map id documents in
    let flt := [("_id", VDict [("$in", VList (map id_value ids))])] in
    let counted :=
      {| records := records w;
         last_oid := last_oid w;
         trace := trace w ++ [count_documents_call flt None] |} in
    let calls :=
      [count_documents_call flt None;
       delete_many_call flt session;
       insert_many_call (map (dict_by_alias false) documents) session] in
    (length (stored_among ids (records w)) <> length documents ->
       replace_many documents session w
       = (inl (ReplaceError
                 "Some of the documents are not exist in the collection"),
          counted))
    /\ (length (stored_among ids (records w)) = length documents ->
        replace_many documents session w
        = (_ ← motor_delete_many flt session;
           _ ← motor_insert_many (map (dict_by_alias false) documents)
                 session;
           mret tt) counted
        /\ trace (snd (replace_many documents session w)) = trace w ++ calls
        /\ (documents <> [] ->
            NoDup (map rec_id (records w)) ->
            replace_many documents session w
            = (inr tt,
               {| records := stored_apart ids (records w)
                             ++ map as_record documents;
                  last_oid := last_oid w;
                  trace := trace w ++ calls |}))
        /\ (documents = [] ->
            replace_many documents session w
            = (inl (TypeError "documents must be a non-empty list"),
               {| records := records w;
                  last_oid := last_oid w;
                  trace := trace w ++ calls |}))).
Proof.
  intros documents session w ids flt counted calls.
  assert (Hcount := count_by_ids documents w). cbn zeta in Hcount.
  fold ids in Hcount.
  change (In_query "_id" (map id_value ids)) with flt in Hcount.
  fold counted in Hcount.
  assert (Hlen : length ids = length documents) by apply length_map.
  split.
  - intros Hne. now apply replace_many_rejects.
  - intros Heq.
    assert (Hrun :
      replace_many documents session w
      = (_ ← motor_delete_many flt session;
         _ ← motor_insert_many (map (dict_by_alias false) documents)
               session;
         mret tt) counted).
    { unfold replace_many. fold ids.
      unfold mbind at 1, SE_bind at 1. rewrite Hcount. rewrite Hlen.
      rewrite Heq, Nat.eqb_refl. cbn [negb].
      unfold FindMany_delete, find, find_many, insert_many. cbn.
      destruct session; reflexivity. }
    assert (Hdelete :
      motor_delete_many flt session counted
      = (inr (length (stored_among ids (records w))),
         {| records := stored_apart ids (records w);
            last_oid := last_oid w;
            trace := trace w ++ [count_documents_call flt None;
                                 delete_many_call flt session] |})).
    { unfold motor_delete_many. run. subst flt counted.
      change [("_id", VDict [("$in", VList (map id_value ids))])]
        with (In_query "_id" (map id_value ids)).
      cbn [records last_oid trace].
      rewrite rejected_in_ids, selected_in_ids, <- app_assoc. reflexivity. }
    split; [exact Hrun|]. split; [|split].
    + rewrite Hrun. unfold mbind at 1, SE_bind at 1. rewrite Hdelete.
      unfold mbind at 1, SE_bind at 1.
      pose proof (motor_insert_many_trace
                    (map (dict_by_alias false) documents) session
                    {| records := stored_apart ids (records w);
                       last_oid := last_oid w;
                       trace := trace w ++
                                [count_documents_call flt None;
                                 delete_many_call flt session] |})
        as Htrace.
      destruct (motor_insert_many _ _ _) as [[e|r] w1];
        cbn in Htrace |- *; rewrite Htrace;
        subst calls; now rewrite <- app_assoc.
    + intros Hne Hnd. rewrite Hrun.
      unfold mbind at 1, SE_bind at 1. rewrite Hdelete.
      unfold mbind at 1, SE_bind at 1.
      rewrite motor_insert_many_nonempty
        by (intros Hnil; apply map_eq_nil in Hnil; contradiction).
      rewrite <- Hlen in Heq.
      destruct (all_found ids (records w) Hnd Heq) as [Hids _].
      cbn [records last_oid trace]. rewrite write_many_kept.
      * subst calls. run. now rewrite <- app_assoc.
      * exact Hids.
      * intros i Hi. now apply stored_apart_ids.
    + intros Hnil. rewrite Hrun.
      unfold mbind at 1, SE_bind at 1. rewrite Hdelete.
      subst calls flt ids. rewrite Hnil. cbn [map].
      rewrite stored_apart_nil. unfold motor_insert_many. run.
      now rewrite <- app_assoc.
Qed.

(** X8. When the store keeps identities distinct, a batch with an identity
    that is not stored is rejected and nothing is changed. *)
Corollary replace_many_missing (documents : list Document)
    (session : option ClientSession) (w : collection) (d : Document) :
  NoDup (map rec_id (records w)) ->
  d ∈ documents ->
  id d ∉ map rec_id (records w) ->
  fst (replace_many documents session w)
  = inl (ReplaceError
           "Some of the documents are not exist in the collection")
  /\ records (snd (replace_many documents session w)) = records w.
Proof.
  intros Hnd Hd Hmissing.
  rewrite replace_many_rejects; [split; reflexivity|].
  intros Hlen. rewrite <- (length_map id documents) in Hlen.
  destruct (all_found _ _ Hnd Hlen) as [_ Hall].
  apply Hmissing, Hall. now apply elem_of_map.
Qed.

Lemma replace_many_contract_witness :
  let kept := {| id := Some 1%N; fields := note_fields "a" |} in
  let lost := {| id := Some 7%N; fields := note_fields "b" |} in
  let last := {| id := Some 3%N; fields := note_fields "c" |} in
  length (stored_among [Some 1%N; Some 7%N] (records three_notes)) <> 2
  /\ replace_many [kept; lost] (Some 4) three_notes
     = (inl (ReplaceError
               "Some of the documents are not exist in the collection"),
        {| records := records three_notes;
           last_oid := 3%N;
           trace := [count_documents_call
                       [("_id", VDict [("$in", VList [VOid 1%N; VOid 7%N])])]
                       None] |})
  /\ length (stored_among [Some 3%N; Some 1%N] (records three_notes)) = 2
  /\ [last; kept] <> []
  /\ NoDup (map rec_id (records three_notes))
  /\ records (snd (replace_many [last; kept] (Some 4) three_notes))
     = [ {| rec_id := Some 2%N; rec_body := old_note_fields "1" |};
         {| rec_id := Some 3%N; rec_body := note_fields "c" |};
         {| rec_id := Some 1%N; rec_body := note_fields "a" |} ]
  /\ replace_many [] (Some 4) three_notes
     = (inl (TypeError "documents must be a non-empty list"),
        {| records := records three_notes;
           last_oid := 3%N;
           trace := [count_documents_call
                       [("_id", VDict [("$in", VList [])])] None;
                     delete_many_call
                       [("_id", VDict [("$in", VList [])])] (Some 4);
                     insert_many_call [] (Some 4)] |}).
Proof.
  intros kept lost last.
  assert (Hne :
    length (stored_among [Some 1%N; Some 7%N] (records three_notes)) <> 2).
  { vm_compute. discriminate. }
  assert (Hbatch : [last; kept] <> []) by discriminate.
  assert (Hnd : NoDup (map rec_id (records three_notes))).
  { cbn. repeat (apply NoDup_cons; split); try apply NoDup_nil_2.
    all: rewrite ?not_elem_of_cons; repeat split;
      try discriminate; apply not_elem_of_nil. }
  split; [exact Hne|]. split.
  - exact (proj1 (replace_many_contract [kept; lost] (Some 4) three_notes)
                 Hne).
  - split; [reflexivity|]. split; [exact Hbatch|]. split; [exact Hnd|].
    split.
    + destruct (proj2 (replace_many_contract [last; kept] (Some 4)
                         three_notes) eq_refl) as (_ & _ & Hdone & _).
      rewrite (Hdone Hbatch Hnd). reflexivity.
    + destruct (proj2 (replace_many_contract [] (Some 4) three_notes)
                  eq_refl) as (_ & _ & _ & Hempty).
      exact (Hempty eq_refl).
Defined.

(** ** Update and resync *)

Lemma foldl_insert_union (l : list (string * value))
    (m0 : gmap string value) :
  NoDup (l.*1) ->
  foldl (fun m kv => <[fst kv := snd kv]> m) m0 l = list_to_map l ∪ m0.
Proof.
  revert m0. induction l as [|[k v] l IH]; intros m0 Hnd; cbn.
  - now rewrite (left_id_L ∅ (∪)).
  - cbn in Hnd. apply NoDup_cons in Hnd as [Hk Hl].
    rewrite IH by exact Hl.
    rewrite <- insert_union_l. apply symmetry, insert_union_r.
    now apply not_elem_of_list_to_map_1.
Qed.

Lemma union_covered (m m0 : gmap string value) :
  dom m0 ⊆ dom m -> m ∪ m0 = m.
Proof.
  intros Hdom. apply map_eq. intros k. rewrite lookup_union.
  destruct (m !! k) as [v|] eqn:Hm; [now destruct (m0 !! k)|].
  destruct (m0 !! k) as [v0|] eqn:Hm0; [|reflexivity].
  assert (Hk : k ∈ dom m) by (apply Hdom, elem_of_dom; eauto).
  apply elem_of_dom in Hk as [v Hv]. congruence.
Qed.

Lemma for_each_setattr (l : list (string * value)) (self : Document)
    (w : collection) :
  for_each (map (fun kv => attr_field (fst kv) (snd kv)) l) setattr (self, w)
  = (inr tt,
     ({| id := id self;
         fields := foldl (fun m kv => <[fst kv := snd kv]> m)
                     (fields self) l |}, w)).
Proof.
  revert self. induction l as [|kv l IH]; intros self; cbn [map for_each].
  - cbn. now destruct self.
  - run. rewrite IH. reflexivity.
Qed.

(** What [_sync] does: one read by the identity; with the record found
    and valid, every attribute of the new instance is set on the
    entity. *)
Lemma sync_run `{DocumentModel} (self : Document) (w : collection) :
  let w' := {| records := records w;
               last_oid := last_oid w;
               trace := trace w ++
                        [find_one_call [("_id", id_value (id self))]
                           None] |} in
  _sync (self, w)
  = match head (List.filter (has_id (id self)) (records w)) with
    | None =>
        (inl (TypeError "'NoneType' object is not iterable"), (self, w'))
    | Some r =>
        match parse_obj r with
        | inl e => (inl (ValidationError e), (self, w'))
        | inr d =>
            (inr tt, ({| id := id d; fields := fields d ∪ fields self |}, w'))
        end
    end.
Proof.
  cbn zeta. unfold _sync. run. rewrite get_run. cbn [fst snd].
  destruct (head (List.filter (has_id (id self)) (records w))) as [r|];
    [|reflexivity].
  destruct (parse_obj r) as [e|d]; [reflexivity|].
  unfold items. cbn [for_each]. run.
  rewrite for_each_setattr. cbn [id fields].
  rewrite foldl_insert_union by apply NoDup_fst_map_to_list.
  now rewrite list_to_map_to_list.
Qed.

Lemma motor_update_one_run `{UpdateLanguage} (flt : dict)
    (update : list dict) (s : option ClientSession) (w : collection) :
  exists (res : exn + nat) (rs : list record),
    motor_update_one flt update s w
    = (res, {| records := rs;
               last_oid := last_oid w;
               trace := trace w ++ [update_one_call flt update s] |}).
Proof.
  unfold motor_update_one. run.
  destruct (head (selected flt (records w))) as [r|]; run.
  - destruct (apply_update update (rec_body r)); run;
      eexists _, _; reflexivity.
  - eexists _, _; reflexivity.
Qed.

Lemma head_filter_holds {A : Type} (P : A -> bool) (l : list A) (x : A) :
  head (List.filter P l) = Some x -> P x = true.
Proof.
  induction l as [|y l IH]; cbn; [discriminate|].
  destruct (P y) eqn:Hy; cbn; [|exact IH].
  intros [= ->]. exact Hy.
Qed.

(** C5, amended. When the entity-level [update] returns, the field
    values of the entity in memory are the values the class validates
    from the stored record, which are the stored values wherever the
    validation keeps a value as it is stored: the method issued the
    partial update keyed by the entity's identity, then read the record
    back and set every field of the entity from the instance built of
    it, so that reading the entity again with [get] yields the in-memory
    state. The entity is an instance of the class: it has no field that
    a validated instance lacks. *)
Theorem update_resync `{DocumentModel} `{UpdateLanguage} :
  forall (self : Document) (args : list dict)
         (session : option ClientSession) (w : collection)
         (self' : Document) (w' : collection),
    (forall b f, validate b = inr f -> dom (fields self) ⊆ dom f) ->
    update args session (self, w) = (inr tt, (self', w')) ->
    trace w'
    = trace w ++ [update_one_call [("_id", id_value (id self))] args session;
                  find_one_call [("_id", id_value (id self))] None]
    /\ id self' = id self
    /\ (exists r, head (List.filter (has_id (id self')) (records w')) = Some r
                  /\ parse_obj r = inr self'
                  /\ validate (rec_body r) = inr (fields self'))
    /\ fst (get (id self') None w') = inr (Some self')
    /\ records (snd (get (id self') None w')) = records w'.
Proof.
  intros self args session w self' w' Hinstance Hrun.
  unfold update, FindOne_update, find_one in Hrun. cbn in Hrun.
  rewrite set_session_None in Hrun.
  unfold mbind at 1, SE_bind at 1 in Hrun. cbn [this gets] in Hrun.
  unfold mbind at 1, SE_bind at 1, await at 1 in Hrun. cbn [fst snd] in Hrun.
  destruct (motor_update_one_run [("_id", id_value (id self))] args session w)
    as (res & rs & Hupd).
  rewrite Hupd in Hrun. destruct res as [e|n]; [discriminate|].
  rewrite sync_run in Hrun. cbn [records last_oid trace] in Hrun.
  destruct (head (List.filter (has_id (id self)) rs)) as [r|] eqn:Hhead;
    [|discriminate].
  destruct (parse_obj r) as [e|d] eqn:Hparse; [discriminate|].
  injection Hrun as <- <-. cbn [id fields records trace].
  assert (Hd : {| id := id d; fields := fields d ∪ fields self |} = d).
  { unfold parse_obj in Hparse.
    destruct (validate (rec_body r)) as [e|f] eqn:Hval; [discriminate|].
    injection Hparse as <-. cbn [id fields].
    now rewrite union_covered by (eapply Hinstance; exact Hval). }
  assert (Hid : id d = id self).
  { apply head_filter_holds, has_id_spec in Hhead.
    unfold parse_obj in Hparse.
    destruct (validate (rec_body r)); [discriminate|].
    injection Hparse as <-. exact Hhead. }
  assert (Hfields : validate (rec_body r) = inr (fields d)).
  { unfold parse_obj in Hparse.
    destruct (validate (rec_body r)) as [e|f]; [discriminate|].
    now injection Hparse as <-. }
  rewrite Hd, Hid. split; [now rewrite <- app_assoc|]. split; [reflexivity|].
  split.
  { exists r. split; [exact Hhead|]. split; [exact Hparse|].
    apply (f_equal fields) in Hd. cbn [fields] in Hd. now rewrite ?Hd. }
  rewrite get_run. cbn [fst snd records]. rewrite Hhead, Hparse.
  split; reflexivity.
Qed.

(** X14. [update] does return when the entity's record is stored, the store
    accepts the modifications and the updated record is valid. *)
Lemma update_returns `{DocumentModel} `{UpdateLanguage} (self : Document)
    (args : list dict) (session : option ClientSession) (w : collection)
    (pre post : list record) (r : record) (b f : gmap string value) :
  records w = pre ++ r :: post ->
  Forall (fun r' => rec_id r' <> id self) pre ->
  rec_id r = id self ->
  apply_update args (rec_body r) = inr b ->
  validate b = inr f ->
  update args session (self, w)
  = (inr tt,
     ({| id := id self; fields := f ∪ fields self |},
      {| records := pre ++ {| rec_id := rec_id r; rec_body := b |} :: post;
         last_oid := last_oid w;
         trace := trace w ++
                  [update_one_call [("_id", id_value (id self))] args session;
                   find_one_call [("_id", id_value (id self))] None] |})).
Proof.
  intros Hw Hpre Hr Hupd Hval.
  assert (Hpre' : Forall (fun r' => has_id (id self) r' = false) pre)
    by now apply other_id.
  assert (Hr' : has_id (id self) r = true) by now apply has_id_spec.
  unfold update, FindOne_update, find_one. cbn.
  rewrite set_session_None.
  unfold mbind at 1, SE_bind at 1. cbn [this gets].
  unfold mbind at 1, SE_bind at 1, await at 1. cbn [fst snd].
  unfold motor_update_one. run.
  rewrite selected_by_id, Hw, head_filter_split by assumption.
  rewrite Hupd. run. rewrite sync_run. cbn [records last_oid trace].
  rewrite on_first_split.
  - rewrite head_filter_split; [|exact Hpre'|exact Hr'].
    unfold parse_obj. cbn [rec_id rec_body]. rewrite Hval.
    cbn [id fields]. rewrite Hr, <- app_assoc. reflexivity.
  - eapply Forall_impl; [exact Hpre'|]. intros r' Hr''. cbn beta in Hr''.
    now rewrite matches_by_id.
  - now rewrite matches_by_id.
Qed.

Lemma Note_validate_dom (b f : gmap string value) :
  Note_validate b = inr f -> dom f = {["title"]}.
Proof.
  unfold Note_validate.
  destruct (b !! "title") as [v|]; [|discriminate].
  destruct (str_validator v); [discriminate|].
  intros [= <-]. rewrite dom_insert_L, dom_empty_L. set_solver.
Qed.

Lemma update_resync_witness :
  let self := {| id := Some 1%N; fields := note_fields "0" |} in
  let args := [[("$set", VDict [("title", VStr "new")])]] in
  let renamed := {| id := Some 1%N; fields := note_fields "new" |} in
  (forall b f, validate (DocumentModel := Note) b = inr f ->
               dom (fields self) ⊆ dom f)
  /\ fst (update (H := Note) (H0 := SetOnly) args (Some 4)
            (self, three_notes)) = inr tt
  /\ fst (snd (update (H := Note) (H0 := SetOnly) args (Some 4)
                 (self, three_notes))) = renamed
  /\ fst (get (H := Note) (Some 1%N) None
            (snd (snd (update (H := Note) (H0 := SetOnly) args (Some 4)
                         (self, three_notes)))))
     = inr (Some renamed).
Proof.
  intros self args renamed.
  assert (Hinstance : forall b f,
            validate (DocumentModel := Note) b = inr f ->
            dom (fields self) ⊆ dom f).
  { intros b f Hval. apply Note_validate_dom in Hval. rewrite Hval.
    subst self. unfold note_fields. cbn [fields].
    rewrite !dom_insert_L, dom_empty_L. set_solver. }
  split; [exact Hinstance|]. split; [reflexivity|]. split; [reflexivity|].
  destruct (update_resync (H := Note) (H0 := SetOnly) self args (Some 4)
              three_notes renamed
              (snd (snd (update (H := Note) (H0 := SetOnly) args (Some 4)
                           (self, three_notes))))
              Hinstance eq_refl) as (_ & _ & _ & Hget & _).
  exact Hget.
Defined.

(** C5 as the design document words it fails where validation converts
    a value: the store sets the title to the integer 7, the class maps it
    to the string, and after [update] has returned the entity holds the
    string while the stored record holds the integer. *)
Lemma update_resync_counterexample :
  let self := {| id := Some 1%N; fields := note_fields "0" |} in
  let args := [[("$set", VDict [("title", VInt 7)])]] in
  let run := update (H := Note) (H0 := SetOnly) args None
               (self, three_notes) in
  fst run = inr tt
  /\ fields (fst (snd run)) !! "title" = Some (VStr "7")
  /\ exists r : record,
       head (List.filter (has_id (Some 1%N)) (records (snd (snd run))))
       = Some r
       /\ rec_body r !! "title" = Some (VInt 7)
       /\ fields (fst (snd run)) <> rec_body r.
Proof.
  cbn zeta. split; [reflexivity|]. split; [reflexivity|].
  eexists. split; [reflexivity|]. split; [reflexivity|].
  intros Heq. apply (f_equal (fun m => m !! "title")) in Heq.
  vm_compute in Heq. discriminate.
Qed.

(** ** The unique index on [_id] *)

Lemma max_oid_bound (rs : list record) (o : ObjectId) :
  Some o ∈ map rec_id rs -> (o <= max_oid rs)%N.
Proof.
  induction rs as [|r rs IH]; cbn.
  - intros Hin. now apply elem_of_nil in Hin.
  - rewrite elem_of_cons. intros [Ho|Hin].
    + destruct (rec_id r) as [o'|]; [|discriminate].
      injection Ho as ->. apply N.le_max_l.
    + specialize (IH Hin). destruct (rec_id r) as [o'|]; [|exact IH].
      etransitivity; [exact IH|apply N.le_max_r].
Qed.

(** The identity the driver generates is the identity of no stored
    record. *)
Lemma fresh_oid_unused (w : collection) :
  Some (fresh_oid w) ∉ map rec_id (records w).
Proof.
  intros Hin. apply max_oid_bound in Hin. unfold fresh_oid in Hin. lia.
Qed.

(** Every write keeps the stored identities pairwise distinct, whether
    it succeeds or is refused. *)
Lemma write_one_distinct (p : payload) (w : collection) :
  NoDup (map rec_id (records w)) ->
  NoDup (map rec_id (records (snd (write_one p w)))).
Proof.
  intros Hnd. unfold write_one. destruct (payload_id p) as [i|]; cbn.
  - destruct (existsb (has_id i) (records w)) eqn:Hex; cbn; [exact Hnd|].
    rewrite map_app. cbn. apply NoDup_app. split; [exact Hnd|].
    split; [|apply NoDup_singleton].
    intros j Hj Hj'. apply list_elem_of_singleton in Hj'. subst j.
    apply not_true_iff_false in Hex. apply Hex.
    apply existsb_exists.
    clear -Hj. induction (records w) as [|r rs IH]; cbn in Hj.
    + now apply elem_of_nil in Hj.
    + apply elem_of_cons in Hj as [Hr|Hj].
      * exists r. split; [now left|]. now apply has_id_spec.
      * destruct (IH Hj) as (r' & Hin & Hhas).
        exists r'. split; [now right|exact Hhas].
  - rewrite map_app. cbn. apply NoDup_app. split; [exact Hnd|].
    split; [|apply NoDup_singleton].
    intros j Hj Hj'. apply list_elem_of_singleton in Hj'. subst j.
    now apply fresh_oid_unused in Hj.
Qed.

Lemma filter_has_id_absent (i : option ObjectId) (rs : list record) :
  i ∉ map rec_id rs -> List.filter (has_id i) rs = [].
Proof.
  induction rs as [|r rs IH]; cbn; [reflexivity|].
  rewrite not_elem_of_cons. intros [Hne Hrs].
  destruct (has_id i r) eqn:Hhas; [|now apply IH].
  apply has_id_spec in Hhas. congruence.
Qed.

Lemma insert_run (f : gmap string value) (session : option ClientSession)
    (w : collection) :
  let self' := {| id := Some (fresh_oid w); fields := f |} in
  insert session ({| id := None; fields := f |}, w)
  = (inr self',
     (self',
      {| records := records w ++
                    [{| rec_id := Some (fresh_oid w); rec_body := f |}];
         last_oid := fresh_oid w;
         trace := trace w ++
                  [insert_one_call
                     {| payload_id := None; payload_body := f |}
                     session] |})).
Proof. reflexivity. Qed.

(** X2. After [insert] the entity's identity is the identity of exactly the
    record it was stored as. *)
Lemma insert_stores_once (self : Document) (session : option ClientSession)
    (w : collection) :
  id self = None ->
  NoDup (map rec_id (records w)) ->
  let self' := fst (snd (insert session (self, w))) in
  let w' := snd (snd (insert session (self, w))) in
  List.filter (has_id (id self')) (records w')
  = [{| rec_id := id self'; rec_body := fields self |}]
  /\ NoDup (map rec_id (records w')).
Proof.
  destruct self as [i f]. cbn [id fields]. intros -> Hnd. cbn zeta.
  rewrite insert_run. cbn [fst snd id records].
  assert (Hfresh := fresh_oid_unused w). split.
  - rewrite List.filter_app, filter_has_id_absent by exact Hfresh.
    cbn [List.filter app].
    now rewrite (proj2 (has_id_spec (Some (fresh_oid w))
                          {| rec_id := Some (fresh_oid w); rec_body := f |})
                       eq_refl).
  - rewrite map_app. cbn. apply NoDup_app. split; [exact Hnd|].
    split; [|apply NoDup_singleton].
    intros j Hj Hj'. apply list_elem_of_singleton in Hj'. now subst j.
Qed.

(** * Further properties of the code *)

(** ** Operators as one-key mappings *)

(** X19. An operator of these classes is a mapping with a single key, its
    field: iterating it yields the field alone, its length is one,
    reading the field yields the keyword and operand, and reading any
    other key raises [KeyError] for that key. *)
Theorem operator_one_key :
  forall op : operator,
    let '(kw, field, operand) := held_state op in
    iter op = [field]
    /\ len op = 1
    /\ getitem op field = inr (VDict [(keyword_name kw, operand)])
    /\ forall k : string, k <> field -> getitem op k = inl (KeyError k).
Proof.
  intros op. destruct op as [f vs|f e|f n|f vs]; cbn.
  all: unfold op_getitem; cbn; rewrite String.eqb_refl.
  all: repeat split.
  all: intros k Hk; apply not_eq_sym, String.eqb_neq in Hk; now rewrite Hk.
Qed.

Lemma operator_one_key_witness :
  "marks" <> "results"
  /\ getitem (Size "results" 2) "marks" = inl (KeyError "marks")
  /\ getitem (Size "results" 2) "results" = inr (VDict [("$size", VInt 2)]).
Proof.
  assert (Hne : "marks" <> "results") by discriminate.
  split; [exact Hne|].
  destruct (operator_one_key (Size "results" 2)) as (_ & _ & Hget & Hmiss).
  split; [exact (Hmiss "marks" Hne)|exact Hget].
Defined.

(** X20. The fragment determines the operator: two operators that render the
    same fragment are of the same class and hold the same field and
    operand. *)
Theorem query_injective :
  forall op1 op2 : operator, query op1 = query op2 -> op1 = op2.
Proof.
  intros op1 op2.
  destruct op1 as [f1 v1|f1 e1|f1 n1|f1 v1], op2 as [f2 v2|f2 e2|f2 n2|f2 v2];
    cbn; intros Heq; injection Heq as Hf Hv; subst;
    try discriminate; reflexivity.
Qed.

Lemma query_injective_witness :
  query (All "results" [VInt 80; VInt 85])
  = [("results", VDict [("$all", VList [VInt 80; VInt 85])])]
  /\ All "results" [VInt 80; VInt 85]
     = All ("res" +:+ "ults") (map VInt [80%Z; 85%Z]).
Proof.
  split; [reflexivity|].
  apply query_injective. reflexivity.
Defined.

(** ** Inserting *)

Lemma insert_stores_once_witness :
  id unsaved_note = None
  /\ NoDup (map rec_id (records three_notes))
  /\ List.filter (has_id (Some 4%N))
       (records (snd (snd (insert None (unsaved_note, three_notes)))))
     = [{| rec_id := Some 4%N; rec_body := note_fields "0" |}].
Proof.
  assert (Hnd : NoDup (map rec_id (records three_notes))).
  { cbn. repeat (apply NoDup_cons; split); try apply NoDup_nil_2.
    all: rewrite ?not_elem_of_cons; repeat split;
      try discriminate; apply not_elem_of_nil. }
  split; [reflexivity|]. split; [exact Hnd|].
  exact (proj1 (insert_stores_once unsaved_note None three_notes
                  eq_refl Hnd)).
Defined.

Lemma get_last_inserted `{DocumentModel} (rs : list record) (o : ObjectId)
    (b : gmap string value) (lo : ObjectId) (tr : list call)
    (s : option ClientSession) :
  Some o ∉ map rec_id rs ->
  fst (get (Some o) s
         {| records := rs ++ [{| rec_id := Some o; rec_body := b |}];
            last_oid := lo; trace := tr |})
  = match validate b with
    | inl e => inl (ValidationError e)
    | inr f => inr (Some {| id := Some o; fields := f |})
    end.
Proof.
  intros Hfresh. rewrite get_run. cbn [fst records].
  rewrite List.filter_app, filter_has_id_absent by exact Hfresh.
  cbn [List.filter app].
  rewrite (proj2 (has_id_spec (Some o) {| rec_id := Some o; rec_body := b |})
                 eq_refl).
  cbn [head]. unfold parse_obj. cbn [rec_id rec_body].
  destruct (validate b); reflexivity.
Qed.

(** X1. Round trip: after [insert] of an entity without identity whose
    fields the class validates, [get] by the identity assigned returns
    the entity with the validated fields, whatever session reads. *)
Theorem insert_get_round_trip `{DocumentModel} :
  forall (self : Document) (session s : option ClientSession)
         (w : collection) (f : gmap string value),
    id self = None ->
    validate (fields self) = inr f ->
    let self' := fst (snd (insert session (self, w))) in
    let w' := snd (snd (insert session (self, w))) in
    fields self' = fields self
    /\ fst (get (id self') s w')
       = inr (Some {| id := id self'; fields := f |}).
Proof.
  intros [i b] session s w f. cbn [id fields]. intros -> Hval. cbn zeta.
  rewrite insert_run. cbn [fst snd id fields]. split; [reflexivity|].
  rewrite get_last_inserted by apply fresh_oid_unused. now rewrite Hval.
Qed.

Lemma insert_get_round_trip_witness :
  id unsaved_note = None
  /\ validate (DocumentModel := Note) (fields unsaved_note)
     = inr (note_fields "0")
  /\ fst (get (H := Note) (Some 4%N) (Some 9)
            (snd (snd (insert None (unsaved_note, three_notes)))))
     = inr (Some {| id := Some 4%N; fields := note_fields "0" |}).
Proof.
  split; [reflexivity|]. split; [reflexivity|].
  exact (proj2 (insert_get_round_trip (H := Note) unsaved_note None (Some 9)
                  three_notes (note_fields "0") eq_refl eq_refl)).
Defined.

Lemma fresh_oid_grows (w : collection) (rs : list record)
    (tr : list call) :
  (fresh_oid w
   < fresh_oid {| records := rs; last_oid := fresh_oid w; trace := tr |})%N.
Proof.
  unfold fresh_oid at 2. cbn [last_oid records].
  apply N.lt_succ_r, N.le_max_l.
Qed.

(** X3. The class method [insert_one] never refuses a document for having
    an identity and never gives it one: it stores the fields under a
    generated identity. A document without identity can therefore be
    inserted again, and [create] after [insert_one] stores its fields a
    second time under another identity. *)
Theorem insert_one_then_create :
  forall (document : Document) (session : option ClientSession)
         (w : collection),
    let o1 := fresh_oid w in
    let w1 := snd (Documents.insert_one document session w) in
    Documents.insert_one document session w
    = (inr (Some o1),
       {| records := records w ++
                     [{| rec_id := Some o1; rec_body := fields document |}];
          last_oid := o1;
          trace := trace w ++
                   [insert_one_call
                      {| payload_id := None;
                         payload_body := fields document |} session] |})
    /\ (Some o1 ∉ map rec_id (records w))
    /\ (id document = None ->
        let o2 := fresh_oid w1 in
        o2 <> o1
        /\ fst (Documents.create session (document, w1))
           = inr {| id := Some o2; fields := fields document |}
        /\ records (snd (snd (Documents.create session (document, w1))))
           = records w ++
             [{| rec_id := Some o1; rec_body := fields document |};
              {| rec_id := Some o2; rec_body := fields document |}]).
Proof.
  intros [i b] session w o1 w1.
  assert (Hrun :
    Documents.insert_one {| id := i; fields := b |} session w
    = (inr (Some o1),
       {| records := records w ++ [{| rec_id := Some o1; rec_body := b |}];
          last_oid := o1;
          trace := trace w ++
                   [insert_one_call
                      {| payload_id := None; payload_body := b |}
                      session] |})) by reflexivity.
  split; [exact Hrun|]. split; [apply fresh_oid_unused|].
  cbn [id fields]. intros ->. cbn zeta. subst w1. rewrite Hrun. cbn [snd].
  unfold Documents.create. rewrite insert_run. cbn [fst snd records fields].
  split.
  - apply N.neq_sym, N.lt_neq. apply fresh_oid_grows.
  - split; [reflexivity|]. now rewrite <- app_assoc.
Qed.

Lemma insert_one_then_create_witness :
  id unsaved_note = None
  /\ records (snd (snd (Documents.create None
                          (unsaved_note,
                           snd (Documents.insert_one unsaved_note None
                                  new_collection)))))
     = [{| rec_id := Some 1%N; rec_body := note_fields "0" |};
        {| rec_id := Some 2%N; rec_body := note_fields "0" |}].
Proof.
  split; [reflexivity|].
  destruct (insert_one_then_create unsaved_note None new_collection)
    as (_ & _ & Hcreate).
  exact (proj2 (proj2 (Hcreate eq_refl))).
Defined.

Lemma zip_with_ids (ids : list ObjectId) (ds : list Document) :
  length ids = length ds ->
  map rec_id
    (zip_with (fun o d => {| rec_id := Some o; rec_body := fields d |})
       ids ds)
  = map Some ids
  /\ map rec_body
       (zip_with (fun o d => {| rec_id := Some o; rec_body := fields d |})
          ids ds)
     = map fields ds.
Proof.
  revert ds. induction ids as [|o ids IH]; intros [|d ds] Hlen;
    try discriminate; cbn; [split; reflexivity|].
  injection Hlen as Hlen. destruct (IH ds Hlen) as [-> ->].
  split; reflexivity.
Qed.

(** A bulk write of documents without [_id] writes them all, in order,
    under generated identities that grow. *)
Lemma write_many_generated (ds : list Document) (w : collection) :
  exists ids : list ObjectId,
    fst (write_many (map (dict_by_alias true) ds) w) = inr (map Some ids)
    /\ records (snd (write_many (map (dict_by_alias true) ds) w))
       = records w ++
         zip_with (fun o d => {| rec_id := Some o; rec_body := fields d |})
           ids ds
    /\ trace (snd (write_many (map (dict_by_alias true) ds) w)) = trace w
    /\ length ids = length ds
    /\ Forall (fun o => (fresh_oid w <= o)%N) ids
    /\ NoDup ids.
Proof.
  revert w. induction ds as [|d ds IH]; intros w.
  - exists []. cbn. rewrite app_nil_r. repeat split; constructor.
  - set (o := fresh_oid w).
    set (w1 := {| records := records w ++
                             [{| rec_id := Some o; rec_body := fields d |}];
                  last_oid := o; trace := trace w |}).
    destruct (IH w1) as (ids & Hres & Hrecs & Htrace & Hlen & Hge & Hnd).
    assert (Hlt : (o < fresh_oid w1)%N) by apply fresh_oid_grows.
    destruct (write_many (map (dict_by_alias true) ds) w1) as [res w2]
      eqn:Hw.
    cbn [fst snd] in Hres, Hrecs, Htrace. subst res.
    assert (Hrun : write_many (map (dict_by_alias true) (d :: ds)) w
                   = (inr (map Some (o :: ids)), w2)).
    { cbn [map write_many]. unfold mbind, SE_bind, write_one.
      cbn [payload_id payload_body dict_by_alias]. fold o. fold w1.
      now rewrite Hw. }
    exists (o :: ids). rewrite Hrun. cbn [fst snd length zip_with].
    split; [reflexivity|]. split.
    { rewrite Hrecs. subst w1. cbn [records]. now rewrite <- app_assoc. }
    split; [exact Htrace|]. split; [now rewrite Hlen|]. split.
    + constructor; [reflexivity|].
      eapply Forall_impl; [exact Hge|]. intros o' Ho'. cbn beta in Ho'.
      apply N.lt_le_incl. eapply N.lt_le_trans; [exact Hlt|exact Ho'].
    + apply NoDup_cons. split; [|exact Hnd]. intros Hin.
      rewrite Forall_forall in Hge. specialize (Hge o Hin).
      apply N.lt_nge in Hlt. contradiction.
Qed.

(** X4. [insert_many] without [keep_ids] ignores the identities of the
    documents: given a batch that is not empty, which the driver
    requires, it stores every document's fields, in order, under
    generated identities, and the stored identities stay pairwise
    distinct. *)
Theorem insert_many_generates :
  forall (documents : list Document) (session : option ClientSession)
         (w : collection),
    documents <> [] ->
    NoDup (map rec_id (records w)) ->
    exists ids : list ObjectId,
      let w' := snd (insert_many documents false session w) in
      fst (insert_many documents false session w) = inr (map Some ids)
      /\ length ids = length documents
      /\ map rec_id (records w') = map rec_id (records w) ++ map Some ids
      /\ map rec_body (records w')
         = map rec_body (records w) ++ map fields documents
      /\ trace w'
         = trace w ++
           [insert_many_call (map (dict_by_alias true) documents) session]
      /\ NoDup (map rec_id (records w')).
Proof.
  intros documents session w Hne Hnd.
  unfold insert_many.
  rewrite motor_insert_many_nonempty by (now destruct documents).
  set (w0 := {| records := records w; last_oid := last_oid w;
                trace := trace w ++
                         [insert_many_call
                            (map (dict_by_alias true) documents) session] |}).
  destruct (write_many_generated documents w0)
    as (ids & Hres & Hrecs & Htrace & Hlen & Hge & Hids).
  exists ids. cbn zeta.
  destruct (write_many (map (dict_by_alias true) documents) w0) as [res w'].
  cbn [fst snd] in *. subst res.
  destruct (zip_with_ids ids documents Hlen) as [Hzid Hzbody].
  assert (Hmap : map rec_id (records w')
                 = map rec_id (records w) ++ map Some ids).
  { rewrite Hrecs, map_app, Hzid. reflexivity. }
  split; [reflexivity|]. split; [exact Hlen|]. split; [exact Hmap|].
  split; [now rewrite Hrecs, map_app, Hzbody|]. split; [exact Htrace|].
  rewrite Hmap. apply NoDup_app. split; [exact Hnd|]. split.
  - intros i Hi Hi'.
    change (map Some ids) with (Some <$> ids) in Hi'.
    apply list_elem_of_fmap in Hi' as (o & -> & Ho).
    apply max_oid_bound in Hi.
    rewrite Forall_forall in Hge. specialize (Hge o Ho).
    unfold fresh_oid in Hge. cbn [records last_oid w0] in Hge.
    assert (max_oid (records w)
            <= N.max (last_oid w) (max_oid (records w)))%N
      by apply N.le_max_r.
    lia.
  - change (map Some ids) with (Some <$> ids).
    apply NoDup_fmap_2; [|exact Hids]. intros a b [= ->]. reflexivity.
Qed.

Lemma insert_many_generates_witness :
  [unsaved_note; {| id := Some 1%N; fields := note_fields "x" |}] <> []
  /\ NoDup (map rec_id (records three_notes))
  /\ NoDup (map rec_id
              (records
                 (snd (insert_many
                         [unsaved_note;
                          {| id := Some 1%N; fields := note_fields "x" |}]
                         false None three_notes)))).
Proof.
  assert (Hne :
    [unsaved_note; {| id := Some 1%N; fields := note_fields "x" |}] <> [])
    by discriminate.
  assert (Hnd : NoDup (map rec_id (records three_notes))).
  { cbn. repeat (apply NoDup_cons; split); try apply NoDup_nil_2.
    all: rewrite ?not_elem_of_cons; repeat split;
      try discriminate; apply not_elem_of_nil. }
  split; [exact Hne|]. split; [exact Hnd|].
  destruct (insert_many_generates
              [unsaved_note; {| id := Some 1%N; fields := note_fields "x" |}]
              None three_notes Hne Hnd) as (ids & _ & _ & _ & _ & _ & Hdis).
  exact Hdis.
Defined.

Example insert_many_ignores_ids :
  map rec_id
    (records
       (snd (insert_many
               [unsaved_note;
                {| id := Some 1%N; fields := note_fields "x" |}]
               false None three_notes)))
  = [Some 1%N; Some 2%N; Some 3%N; Some 4%N; Some 5%N].
Proof. reflexivity. Qed.

(** ** Counting and deleting *)

Lemma rejected_empty (rs : list record) : rejected [] rs = [].
Proof.
  unfold rejected. induction rs as [|r rs IH]; cbn; [reflexivity|].
  now rewrite matches_empty.
Qed.

Lemma count_run (w : collection) :
  Documents.count w
  = (inr (length (records w)),
     {| records := records w;
        last_oid := last_oid w;
        trace := trace w ++ [count_documents_call [] None] |}).
Proof.
  unfold Documents.count, FindMany_count, find_all, find_many,
    motor_count_documents. cbn. run.
  now rewrite Nat.sub_0_r, selected_empty.
Qed.

Lemma delete_all_run (session : option ClientSession) (w : collection) :
  Documents.delete_all session w
  = (inr (length (records w)),
     {| records := [];
        last_oid := last_oid w;
        trace := trace w ++ [delete_many_call [] session] |}).
Proof.
  unfold Documents.delete_all, FindMany_delete, find_all, find_many,
    motor_delete_many. cbn. run.
  now rewrite set_session_None, selected_empty, rejected_empty.
Qed.

(** X5. [count] reads and changes nothing, and every [insert] of an entity
    without identity raises it by one. *)
Theorem count_after_insert :
  forall (self : Document) (session : option ClientSession)
         (w : collection),
    id self = None ->
    fst (Documents.count w) = inr (length (records w))
    /\ records (snd (Documents.count w)) = records w
    /\ fst (Documents.count (snd (snd (insert session (self, w)))))
       = inr (S (length (records w))).
Proof.
  intros [i f] session w. cbn [id]. intros ->.
  rewrite insert_run, !count_run. cbn [fst snd records].
  split; [reflexivity|]. split; [reflexivity|].
  rewrite length_app. cbn. f_equal. lia.
Qed.

Lemma count_after_insert_witness :
  id unsaved_note = None
  /\ fst (Documents.count
            (snd (snd (insert (Some 4) (unsaved_note, ten_notes)))))
     = inr 11.
Proof.
  split; [reflexivity|].
  exact (proj2 (proj2 (count_after_insert unsaved_note (Some 4) ten_notes
                         eq_refl))).
Defined.

(** X6. [delete_all] removes every record in one [delete_many] with the
    empty filter and the session, returns how many there were, and
    [count] afterwards is zero. *)
Theorem delete_all_then_count :
  forall (session : option ClientSession) (w : collection),
    Documents.delete_all session w
    = (inr (length (records w)),
       {| records := [];
          last_oid := last_oid w;
          trace := trace w ++ [delete_many_call [] session] |})
    /\ fst (Documents.count (snd (Documents.delete_all session w))) = inr 0.
Proof.
  intros session w. rewrite delete_all_run. split; [reflexivity|].
  now rewrite count_run.
Qed.

Lemma remove_first_unselected (flt : dict) (rs : list record) :
  head (selected flt rs) = None -> Documents.remove_first flt rs = rs.
Proof.
  unfold selected. induction rs as [|r rs IH]; cbn; [reflexivity|].
  destruct (matches flt r); cbn; intros Hnone; [discriminate|].
  now rewrite IH.
Qed.

Lemma remove_first_by_id (i : option ObjectId) (rs : list record) :
  NoDup (map rec_id rs) ->
  Forall (fun r => rec_id r <> i)
    (Documents.remove_first [("_id", id_value i)] rs).
Proof.
  induction rs as [|r rs IH]; cbn; [constructor|].
  rewrite NoDup_cons. intros [Hr Hrs]. rewrite matches_by_id.
  destruct (has_id i r) eqn:Hhas.
  - apply has_id_spec in Hhas. subst i.
    apply Forall_forall. intros r' Hr' Heq. apply Hr. rewrite <- Heq.
    now apply elem_of_map.
  - constructor; [|now apply IH].
    intros Heq. apply has_id_spec in Heq. congruence.
Qed.

Lemma remove_first_length (flt : dict) (rs : list record) :
  length (Documents.remove_first flt rs)
  = length rs - match head (selected flt rs) with Some _ => 1 | None => 0 end.
Proof.
  unfold selected. induction rs as [|r rs IH]; cbn; [reflexivity|].
  destruct (matches flt r); cbn; [lia|]. rewrite IH.
  destruct (head (List.filter (matches flt) rs)) as [r'|] eqn:Hhead;
    [|lia].
  destruct rs as [|r0 rs]; [discriminate|]. cbn. lia.
Qed.

Lemma delete_run (self : Document) (session : option ClientSession)
    (w : collection) :
  let flt := [("_id", id_value (id self))] in
  Documents.delete session (self, w)
  = (inr (match head (selected flt (records w)) with
          | Some _ => 1
          | None => 0
          end),
     (self,
      {| records := Documents.remove_first flt (records w);
         last_oid := last_oid w;
         trace := trace w ++ [delete_one_call flt session] |})).
Proof.
  cbn zeta. unfold Documents.delete, Documents.FindOne_delete, find_one,
    Documents.motor_delete_one. cbn. run. rewrite set_session_None.
  destruct (head (selected [("_id", id_value (id self))] (records w)))
    eqn:Hsel; run; [reflexivity|].
  now rewrite remove_first_unselected by exact Hsel.
Qed.

(** X7. [delete] never raises, whether or not the entity has an identity or
    a record: it issues one [delete_one] keyed by the identity and
    returns the number deleted, at most one. With stored identities
    pairwise distinct no record of that identity is left, so [get]
    returns nothing; and the entity keeps its identity, so that [insert]
    on it is still rejected. *)
Theorem delete_contract `{DocumentModel} :
  forall (self : Document) (session : option ClientSession)
         (w : collection),
    NoDup (map rec_id (records w)) ->
    let flt := [("_id", id_value (id self))] in
    let n := match head (selected flt (records w)) with
             | Some _ => 1
             | None => 0
             end in
    let w' := snd (snd (Documents.delete session (self, w))) in
    Documents.delete session (self, w) = (inr n, (self, w'))
    /\ trace w' = trace w ++ [delete_one_call flt session]
    /\ length (records w') = length (records w) - n
    /\ Forall (fun r => rec_id r <> id self) (records w')
    /\ fst (get (id self) None w') = inr None
    /\ (id self <> None ->
        fst (insert session (self, w')) = inl DocumentAlreadyCreated).
Proof.
  intros self session w Hnd. cbn zeta. rewrite delete_run.
  cbn [fst snd records trace].
  assert (Hgone : Forall (fun r => rec_id r <> id self)
                    (Documents.remove_first [("_id", id_value (id self))]
                       (records w)))
    by now apply remove_first_by_id.
  split; [reflexivity|]. split; [reflexivity|].
  split; [apply remove_first_length|]. split; [exact Hgone|]. split.
  - rewrite get_run. cbn [fst records].
    now rewrite head_filter_none by now apply other_id.
  - destruct self as [[o|] f]; [reflexivity|]. intros Hid. now contradict Hid.
Qed.

Lemma delete_contract_witness :
  let self := {| id := Some 2%N; fields := note_fields "1" |} in
  NoDup (map rec_id (records three_notes))
  /\ id self <> None
  /\ Documents.delete None (self, three_notes)
     = (inr 1,
        (self,
         {| records :=
              [ {| rec_id := Some 1%N; rec_body := note_fields "0" |};
                {| rec_id := Some 3%N; rec_body := note_fields "2" |} ];
            last_oid := 3%N;
            trace := [delete_one_call [("_id", VOid 2%N)] None] |}))
  /\ fst (insert None
            (self, snd (snd (Documents.delete None (self, three_notes)))))
     = inl DocumentAlreadyCreated.
Proof.
  intros self.
  assert (Hnd : NoDup (map rec_id (records three_notes))).
  { cbn. repeat (apply NoDup_cons; split); try apply NoDup_nil_2.
    all: rewrite ?not_elem_of_cons; repeat split;
      try discriminate; apply not_elem_of_nil. }
  assert (Hid : id self <> None) by discriminate.
  split; [exact Hnd|]. split; [exact Hid|].
  destruct (delete_contract (H := Note) self None three_notes Hnd)
    as (Hrun & _ & _ & _ & _ & Hinsert).
  split; [exact Hrun|exact (Hinsert Hid)].
Defined.

(** ** Replacing many: rejected and accepted batches *)

Lemma replace_many_missing_witness :
  let kept := {| id := Some 1%N; fields := note_fields "a" |} in
  let lost := {| id := Some 7%N; fields := note_fields "b" |} in
  NoDup (map rec_id (records three_notes))
  /\ (lost ∈ [kept; lost])
  /\ (id lost ∉ map rec_id (records three_notes))
  /\ records (snd (replace_many [kept; lost] None three_notes))
     = records three_notes.
Proof.
  intros kept lost.
  assert (Hnd : NoDup (map rec_id (records three_notes))).
  { cbn. repeat (apply NoDup_cons; split); try apply NoDup_nil_2.
    all: rewrite ?not_elem_of_cons; repeat split;
      try discriminate; apply not_elem_of_nil. }
  assert (Hin : lost ∈ [kept; lost])
    by apply list_elem_of_further, list_elem_of_here.
  assert (Hmissing : id lost ∉ map rec_id (records three_notes)).
  { cbn. rewrite !not_elem_of_cons. repeat split; try discriminate.
    apply not_elem_of_nil. }
  split; [exact Hnd|]. split; [exact Hin|]. split; [exact Hmissing|].
  exact (proj2 (replace_many_missing [kept; lost] None three_notes lost
                  Hnd Hin Hmissing)).
Defined.

(** X9. A batch that lists an identity twice is rejected even when every
    identity in it is stored: the stored identities being pairwise
    distinct, the count falls short of the number of documents. *)
Theorem replace_many_duplicate_rejected :
  forall (documents : list Document) (session : option ClientSession)
         (w : collection),
    NoDup (map rec_id (records w)) ->
    ~ NoDup (map id documents) ->
    fst (replace_many documents session w)
    = inl (ReplaceError
             "Some of the documents are not exist in the collection")
    /\ records (snd (replace_many documents session w)) = records w.
Proof.
  intros documents session w Hnd Hdup.
  rewrite replace_many_rejects; [split; reflexivity|].
  intros Hlen. rewrite <- (length_map id documents) in Hlen.
  destruct (all_found _ _ Hnd Hlen) as [Hids _]. contradiction.
Qed.

Lemma replace_many_duplicate_rejected_witness :
  let twice := {| id := Some 1%N; fields := note_fields "a" |} in
  NoDup (map rec_id (records three_notes))
  /\ ~ NoDup (map id [twice; twice])
  /\ fst (replace_many [twice; twice] None three_notes)
     = inl (ReplaceError
              "Some of the documents are not exist in the collection").
Proof.
  intros twice.
  assert (Hnd : NoDup (map rec_id (records three_notes))).
  { cbn. repeat (apply NoDup_cons; split); try apply NoDup_nil_2.
    all: rewrite ?not_elem_of_cons; repeat split;
      try discriminate; apply not_elem_of_nil. }
  assert (Hdup : ~ NoDup (map id [twice; twice])).
  { cbn. rewrite NoDup_cons. intros [Hnin _]. apply Hnin.
    apply list_elem_of_here. }
  split; [exact Hnd|]. split; [exact Hdup|].
  exact (proj1 (replace_many_duplicate_rejected [twice; twice] None
                  three_notes Hnd Hdup)).
Defined.

Lemma replace_many_accepts (documents : list Document)
    (session : option ClientSession) (w : collection) :
  let ids := map id documents in
  let flt := In_query "_id" (map id_value ids) in
  documents <> [] ->
  length (stored_among ids (records w)) = length documents ->
  NoDup (map rec_id (records w)) ->
  replace_many documents session w
  = (inr tt,
     {| records := stored_apart ids (records w) ++ map as_record documents;
        last_oid := last_oid w;
        trace := trace w ++
                 [count_documents_call flt None;
                  delete_many_call flt session;
                  insert_many_call (map (dict_by_alias false) documents)
                    session] |}).
Proof.
  intros ids flt Hne Heq Hnd. subst ids flt.
  assert (Hlen : length (map id documents) = length documents)
    by apply length_map.
  unfold replace_many.
  unfold mbind at 1, SE_bind at 1. rewrite (count_by_ids documents w).
  rewrite Hlen, Heq, Nat.eqb_refl. cbn [negb].
  unfold FindMany_delete, find, find_many, insert_many.
  cbn [many_expressions many_session FindMany_find_many FindMany_new app
       get_filter_query criterion_dict set_session].
  rewrite set_session_None. unfold query. cbn [query_getter fst].
  rewrite <- Hlen in Heq.
  destruct (all_found _ (records w) Hnd Heq) as [Hids _].
  unfold motor_delete_many. run.
  rewrite motor_insert_many_nonempty by (now destruct documents).
  cbn [records last_oid trace].
  rewrite rejected_in_ids, write_many_kept.
  - rewrite <- !app_assoc. reflexivity.
  - exact Hids.
  - intros i Hi. now apply stored_apart_ids.
Qed.

Lemma found_permutation (ids : list (option ObjectId)) (rs : list record) :
  NoDup (map rec_id rs) ->
  length (stored_among ids rs) = length ids ->
  map rec_id (stored_among ids rs) ≡ₚ ids.
Proof.
  intros Hrs Hlen. apply submseteq_length_Permutation.
  - apply NoDup_submseteq; [now apply NoDup_filter_ids|].
    intros i Hi. apply elem_of_filter_ids in Hi as (r & _ & <- & Hr).
    now apply bool_decide_eq_true_1 in Hr.
  - rewrite length_map. lia.
Qed.

Lemma filter_partition {A : Type} (P : A -> bool) (l : list A) :
  l ≡ₚ List.filter P l ++ List.filter (fun x => negb (P x)) l.
Proof.
  induction l as [|x l IH]; cbn; [reflexivity|].
  destruct (P x); cbn.
  - now constructor.
  - rewrite <- Permutation_middle. now constructor.
Qed.

(** X10. An accepted batch, which the driver requires not to be empty, leaves
    as many records as there were, under the same identities, pairwise
    distinct as before; the records not named are untouched and come
    first, and every document of the batch is stored as it was given. *)
Theorem replace_many_keeps_identities :
  forall (documents : list Document) (session : option ClientSession)
         (w : collection),
    documents <> [] ->
    NoDup (map rec_id (records w)) ->
    length (stored_among (map id documents) (records w))
    = length documents ->
    let w' := snd (replace_many documents session w) in
    fst (replace_many documents session w) = inr tt
    /\ records w'
       = stored_apart (map id documents) (records w)
         ++ map as_record documents
    /\ map rec_id (records w') ≡ₚ map rec_id (records w)
    /\ length (records w') = length (records w)
    /\ NoDup (map rec_id (records w')).
Proof.
  intros documents session w Hne Hnd Heq. cbn zeta.
  rewrite replace_many_accepts by assumption. cbn [fst snd records].
  split; [reflexivity|]. split; [reflexivity|].
  assert (Hperm :
    map rec_id (stored_apart (map id documents) (records w)
                ++ map as_record documents)
    ≡ₚ map rec_id (records w)).
  { rewrite map_app, map_map. cbn [as_record rec_id].
    change (map (fun x : Document => id x) documents)
      with (map id documents).
    rewrite <- (found_permutation (map id documents) (records w)) at 2
      by (rewrite ?length_map; assumption).
    rewrite <- map_app, Permutation_app_comm.
    apply Permutation_map, symmetry, filter_partition. }
  split; [exact Hperm|]. split.
  - rewrite <- (length_map rec_id), <- (length_map rec_id (records w)).
    now apply Permutation_length.
  - now rewrite Hperm.
Qed.

Lemma replace_many_keeps_identities_witness :
  let last := {| id := Some 3%N; fields := note_fields "c" |} in
  let kept := {| id := Some 1%N; fields := note_fields "a" |} in
  [last; kept] <> []
  /\ NoDup (map rec_id (records three_notes))
  /\ length (stored_among (map id [last; kept]) (records three_notes))
     = length [last; kept]
  /\ length (records (snd (replace_many [last; kept] None three_notes)))
     = 3.
Proof.
  intros last kept.
  assert (Hne : [last; kept] <> []) by discriminate.
  assert (Hnd : NoDup (map rec_id (records three_notes))).
  { cbn. repeat (apply NoDup_cons; split); try apply NoDup_nil_2.
    all: rewrite ?not_elem_of_cons; repeat split;
      try discriminate; apply not_elem_of_nil. }
  split; [exact Hne|]. split; [exact Hnd|]. split; [reflexivity|].
  destruct (replace_many_keeps_identities [last; kept] None three_notes
              Hne Hnd eq_refl) as (_ & _ & _ & Hlen & _).
  exact Hlen.
Defined.

(** ** Replacing and updating one entity *)

Lemma replace_run (self : Document) (session : option ClientSession)
    (w : collection) (o : ObjectId) :
  id self = Some o ->
  replace session (self, w)
  = (inr self,
     (self,
      {| records :=
           on_first [("_id", VOid o)]
             (fun r => {| rec_id := rec_id r; rec_body := fields self |})
             (records w);
         last_oid := last_oid w;
         trace := trace w ++
                  [replace_one_call [("_id", VOid o)] (fields self)
                     session] |})).
Proof.
  destruct self as [i f]. cbn [id fields]. intros ->.
  unfold replace, FindOne_replace_one, find_one. run. cbn.
  rewrite set_session_None.
  destruct (motor_replace_one_run [("_id", VOid o)] f session w) as (n & ->).
  reflexivity.
Qed.

(** X11. Round trip: after [replace] on an entity whose record is stored and
    whose fields the class validates, [get] by its identity returns the
    entity with the validated fields. *)
Theorem replace_get_round_trip `{DocumentModel} :
  forall (self : Document) (session s : option ClientSession)
         (w : collection) (o : ObjectId) (pre post : list record)
         (r : record) (f : gmap string value),
    id self = Some o ->
    records w = pre ++ r :: post ->
    Forall (fun r' => rec_id r' <> Some o) pre ->
    rec_id r = Some o ->
    validate (fields self) = inr f ->
    fst (get (Some o) s (snd (snd (replace session (self, w)))))
    = inr (Some {| id := Some o; fields := f |}).
Proof.
  intros self session s w o pre post r f Hid Hw Hpre Hr Hval.
  rewrite (replace_run self session w o Hid). cbn [snd].
  rewrite get_run. cbn [fst records]. rewrite Hw.
  assert (Hpre' : Forall (fun r' => has_id (Some o) r' = false) pre)
    by now apply other_id.
  assert (Hr' : has_id (Some o) r = true) by now apply has_id_spec.
  rewrite on_first_split.
  - rewrite head_filter_split; [|exact Hpre'|now apply has_id_spec].
    unfold parse_obj. cbn [rec_id rec_body]. now rewrite Hval, Hr.
  - eapply Forall_impl; [exact Hpre'|]. intros r' Hr''. cbn beta in Hr''.
    change (VOid o) with (id_value (Some o)). now rewrite matches_by_id.
  - change (VOid o) with (id_value (Some o)). now rewrite matches_by_id.
Qed.

Lemma replace_get_round_trip_witness :
  let self := {| id := Some 2%N; fields := note_fields "1" |} in
  id self = Some 2%N
  /\ validate (DocumentModel := Note) (fields self) = inr (note_fields "1")
  /\ fst (get (H := Note) (Some 2%N) None
            (snd (snd (replace None (self, three_notes)))))
     = inr (Some self).
Proof.
  intros self. split; [reflexivity|]. split; [reflexivity|].
  apply (replace_get_round_trip (H := Note) self None None three_notes 2%N
           [ {| rec_id := Some 1%N; rec_body := note_fields "0" |} ]
           [ {| rec_id := Some 3%N; rec_body := note_fields "2" |} ]
           {| rec_id := Some 2%N; rec_body := old_note_fields "1" |}
           (note_fields "1")); try reflexivity.
  repeat constructor. discriminate.
Defined.

Lemma on_first_ids (flt : dict) (f : record -> record) (rs : list record) :
  (forall r, rec_id (f r) = rec_id r) ->
  map rec_id (on_first flt f rs) = map rec_id rs.
Proof.
  intros Hf. induction rs as [|r rs IH]; cbn; [reflexivity|].
  destruct (matches flt r); cbn; [now rewrite Hf|now rewrite IH].
Qed.

Lemma motor_update_one_ids `{UpdateLanguage} (flt : dict)
    (update : list dict) (s : option ClientSession) (w : collection) :
  map rec_id (records (snd (motor_update_one flt update s w)))
  = map rec_id (records w).
Proof.
  unfold motor_update_one. run.
  destruct (head (selected flt (records w))) as [r|]; run; [|reflexivity].
  destruct (apply_update update (rec_body r)); run; [reflexivity|].
  now apply on_first_ids.
Qed.

Lemma update_state `{DocumentModel} `{UpdateLanguage} (self : Document)
    (args : list dict) (session : option ClientSession) (w : collection) :
  records (snd (snd (update args session (self, w))))
  = records (snd (motor_update_one [("_id", id_value (id self))] args
                    session w)).
Proof.
  unfold update, FindOne_update, find_one. cbn.
  rewrite set_session_None.
  unfold mbind at 1, SE_bind at 1. cbn [this gets].
  unfold mbind at 1, SE_bind at 1, await at 1. cbn [fst snd].
  destruct (motor_update_one [("_id", id_value (id self))] args session w)
    as [[e|n] w1]; [reflexivity|].
  rewrite sync_run. cbn [snd].
  destruct (head (List.filter (has_id (id self)) (records w1))) as [r|];
    [|reflexivity].
  destruct (parse_obj r); reflexivity.
Qed.

(** X12. [replace] and [update] never change which identities are stored,
    nor their order, whatever the entity, the modifications and the
    outcome: the identity of a record survives every full replacement and
    every partial update. *)
Theorem replace_update_keep_identities `{DocumentModel} `{UpdateLanguage} :
  forall (self : Document) (args : list dict)
         (session : option ClientSession) (w : collection),
    map rec_id (records (snd (snd (replace session (self, w)))))
    = map rec_id (records w)
    /\ map rec_id (records (snd (snd (update args session (self, w)))))
       = map rec_id (records w).
Proof.
  intros self args session w. split.
  - destruct (id self) as [o|] eqn:Hid.
    + rewrite (replace_run self session w o Hid). cbn [snd records].
      now apply on_first_ids.
    + destruct self as [i f]. cbn [id] in Hid. subst i. reflexivity.
  - rewrite update_state. apply motor_update_one_ids.
Qed.



Lemma update_returns_witness :
  let self := {| id := Some 1%N; fields := note_fields "0" |} in
  let args := [[("$set", VDict [("title", VStr "new")])]] in
  rec_id {| rec_id := Some 1%N; rec_body := note_fields "0" |} = id self
  /\ apply_update (UpdateLanguage := SetOnly) args (note_fields "0")
     = inr (note_fields "new")
  /\ validate (DocumentModel := Note) (note_fields "new")
     = inr (note_fields "new")
  /\ fst (update (H := Note) (H0 := SetOnly) args None (self, three_notes))
     = inr tt.
Proof.
  intros self args.
  split; [reflexivity|]. split; [reflexivity|]. split; [reflexivity|].
  rewrite (update_returns (H := Note) (H0 := SetOnly) self args None
             three_notes []
             [ {| rec_id := Some 2%N; rec_body := old_note_fields "1" |};
               {| rec_id := Some 3%N; rec_body := note_fields "2" |} ]
             {| rec_id := Some 1%N; rec_body := note_fields "0" |}
             (note_fields "new") (note_fields "new")
             eq_refl (Forall_nil_2 _) eq_refl eq_refl eq_refl).
  reflexivity.
Defined.

(** X15. When the record is stored and the store applies the modifications
    but the class no longer validates the updated record, [update]
    raises [ValidationError] after the write: the store holds the updated
    record and the entity keeps its old fields. *)
Theorem update_invalid_after_write `{DocumentModel} `{UpdateLanguage} :
  forall (self : Document) (args : list dict)
         (session : option ClientSession) (w : collection)
         (pre post : list record) (r : record) (b : gmap string value)
         (e : string),
    records w = pre ++ r :: post ->
    Forall (fun r' => rec_id r' <> id self) pre ->
    rec_id r = id self ->
    apply_update args (rec_body r) = inr b ->
    validate b = inl e ->
    update args session (self, w)
    = (inl (ValidationError e),
       (self,
        {| records := pre ++ {| rec_id := rec_id r; rec_body := b |} :: post;
           last_oid := last_oid w;
           trace := trace w ++
                    [update_one_call [("_id", id_value (id self))] args
                       session;
                     find_one_call [("_id", id_value (id self))] None] |})).
Proof.
  intros self args session w pre post r b e Hw Hpre Hr Hupd Hval.
  assert (Hpre' : Forall (fun r' => has_id (id self) r' = false) pre)
    by now apply other_id.
  assert (Hr' : has_id (id self) r = true) by now apply has_id_spec.
  unfold update, FindOne_update, find_one. cbn.
  rewrite set_session_None.
  unfold mbind at 1, SE_bind at 1. cbn [this gets].
  unfold mbind at 1, SE_bind at 1, await at 1. cbn [fst snd].
  unfold motor_update_one. run.
  rewrite selected_by_id, Hw, head_filter_split by assumption.
  rewrite Hupd. run. rewrite sync_run. cbn [records last_oid trace].
  rewrite on_first_split.
  - rewrite head_filter_split; [|exact Hpre'|exact Hr'].
    unfold parse_obj. cbn [rec_id rec_body]. rewrite Hval.
    now rewrite <- app_assoc.
  - eapply Forall_impl; [exact Hpre'|]. intros r' Hr''. cbn beta in Hr''.
    now rewrite matches_by_id.
  - now rewrite matches_by_id.
Qed.

Lemma update_invalid_after_write_witness :
  let self := {| id := Some 1%N; fields := note_fields "0" |} in
  let args := [[("$set", VDict [("title", VList [VInt 1])])]] in
  let e := validation_error_text "Note" "title"
             "str type expected (type=type_error.str)" in
  apply_update (UpdateLanguage := SetOnly) args (note_fields "0")
  = inr (<["title" := VList [VInt 1]]> (note_fields "0"))
  /\ validate (DocumentModel := Note)
       (<["title" := VList [VInt 1]]> (note_fields "0"))
     = inl e
  /\ fst (update (H := Note) (H0 := SetOnly) args None (self, three_notes))
     = inl (ValidationError e)
  /\ fst (snd (update (H := Note) (H0 := SetOnly) args None
                 (self, three_notes))) = self.
Proof.
  intros self args e. split; [reflexivity|]. split; [reflexivity|].
  rewrite (update_invalid_after_write (H := Note) (H0 := SetOnly) self args
             None three_notes []
             [ {| rec_id := Some 2%N; rec_body := old_note_fields "1" |};
               {| rec_id := Some 3%N; rec_body := note_fields "2" |} ]
             {| rec_id := Some 1%N; rec_body := note_fields "0" |}
             (<["title" := VList [VInt 1]]> (note_fields "0"))
             e
             eq_refl (Forall_nil_2 _) eq_refl eq_refl eq_refl).
  split; reflexivity.
Defined.

(** ** Binding a class to its collection *)

Lemma init_fold (l : list (string * Documents.ModelField))
    (cls : Documents.DocumentClass) :
  NoDup (l.*1) ->
  let cls' :=
    foldl (fun cls kv =>
             Documents.setattr_class (fst kv)
               (Documents.expression_field (Documents.storage_path (snd kv)))
               cls)
          cls l in
  Documents.__fields__ cls' = Documents.__fields__ cls
  /\ forall k,
       Documents.attributes cls' !! k
       = match (list_to_map l : gmap string Documents.ModelField) !! k with
         | Some v =>
             Some (Documents.expression_field (Documents.storage_path v))
         | None => Documents.attributes cls !! k
         end.
Proof.
  revert cls. induction l as [|[k0 v0] l IH]; intros cls Hnd; cbn zeta.
  - cbn. split; [reflexivity|]. intros k. now rewrite lookup_empty.
  - cbn in Hnd. apply NoDup_cons in Hnd as [Hk0 Hl]. cbn [foldl fst snd].
    destruct (IH (Documents.setattr_class k0
                    (Documents.expression_field (Documents.storage_path v0))
                    cls) Hl) as [Hfields Hattrs].
    split; [exact Hfields|]. intros k. rewrite Hattrs.
    rewrite list_to_map_cons.
    cbn [Documents.setattr_class Documents.attributes].
    destruct (decide (k = k0)) as [->|Hne].
    + rewrite (not_elem_of_list_to_map_1 _ _ Hk0).
      now rewrite !lookup_insert_eq.
    + now rewrite !lookup_insert_ne by congruence.
Qed.

Lemma init_collection_attributes (m : Documents.CollectionMeta)
    (cls : Documents.DocumentClass) (k : string) :
  Documents.__fields__ (Documents.init_collection m cls)
  = Documents.__fields__ cls
  /\ Documents.attributes (Documents.init_collection m cls) !! k
     = match Documents.__fields__ cls !! k with
       | Some v =>
           Some (Documents.expression_field (Documents.storage_path v))
       | None =>
           if decide (k = "CollectionMeta")
           then Some (Documents.meta_attribute m)
           else Documents.attributes cls !! k
       end.
Proof.
  unfold Documents.init_collection.
  destruct (init_fold
              (map_to_list (Documents.__fields__
                 (Documents.setattr_class "CollectionMeta"
                    (Documents.meta_attribute m) cls)))
              (Documents.setattr_class "CollectionMeta"
                 (Documents.meta_attribute m) cls)
              (NoDup_fst_map_to_list _)) as [Hfields Hattrs].
  cbn zeta in Hfields, Hattrs. split; [exact Hfields|].
  rewrite Hattrs, list_to_map_to_list.
  cbn [Documents.setattr_class Documents.__fields__ Documents.attributes].
  destruct (Documents.__fields__ cls !! k); [reflexivity|].
  destruct (decide (k = "CollectionMeta")) as [->|Hne].
  - now rewrite lookup_insert_eq.
  - now rewrite lookup_insert_ne by congruence.
Qed.

(** X21. Before [init_collection] the class has no collection:
    [get_motor_collection] raises [CollectionWasNotInitialized], and so
    does the construction of an instance from valid data, after the
    validation. [init_collection] binds the collection it is given,
    whatever was bound before, unless the class declares a field named
    [CollectionMeta], whose expression field then takes the place of
    the binding. *)
Theorem init_collection_binding `{DocumentModel} :
  forall (m : Documents.CollectionMeta) (cls : Documents.DocumentClass),
    (Documents.attributes cls !! "CollectionMeta" = None ->
       Documents.get_motor_collection cls
       = inl Documents.CollectionWasNotInitialized
       /\ forall data,
            Documents.__init__ cls data
            = match parse_obj data with
              | inl e => inl (Documents.init_ValidationError e)
              | inr _ => inl Documents.init_CollectionWasNotInitialized
              end)
    /\ (Documents.__fields__ cls !! "CollectionMeta" = None ->
        Documents.get_motor_collection (Documents.init_collection m cls)
        = inr (inl (Documents.motor_collection m))
        /\ forall data,
             Documents.__init__ (Documents.init_collection m cls) data
             = match parse_obj data with
               | inl e => inl (Documents.init_ValidationError e)
               | inr self => inr self
               end)
    /\ (forall v, Documents.__fields__ cls !! "CollectionMeta" = Some v ->
        Documents.get_motor_collection (Documents.init_collection m cls)
        = inr (inr (Documents.storage_path v +:+ ".motor_collection"))).
Proof.
  intros m cls. split; [|split].
  - intros Hnone.
    assert (Hget : Documents.get_motor_collection cls
                   = inl Documents.CollectionWasNotInitialized).
    { unfold Documents.get_motor_collection, Documents._get_collection_meta.
      now rewrite Hnone. }
    split; [exact Hget|]. intros data. unfold Documents.__init__.
    rewrite Hget. now destruct (parse_obj data).
  - intros Hfield.
    assert (Hget :
      Documents.get_motor_collection (Documents.init_collection m cls)
      = inr (inl (Documents.motor_collection m))).
    { unfold Documents.get_motor_collection, Documents._get_collection_meta.
      rewrite (proj2 (init_collection_attributes m cls "CollectionMeta")).
      rewrite Hfield. now rewrite decide_True by reflexivity. }
    split; [exact Hget|]. intros data. unfold Documents.__init__.
    rewrite Hget. now destruct (parse_obj data).
  - intros v Hfield.
    unfold Documents.get_motor_collection, Documents._get_collection_meta.
    rewrite (proj2 (init_collection_attributes m cls "CollectionMeta")).
    now rewrite Hfield.
Qed.

Lemma init_collection_binding_witness :
  Documents.attributes Documents.Note_class !! "CollectionMeta" = None
  /\ Documents.__fields__ Documents.Note_class !! "CollectionMeta" = None
  /\ Documents.get_motor_collection Documents.Note_class
     = inl Documents.CollectionWasNotInitialized
  /\ Documents.get_motor_collection
       (Documents.init_collection {| Documents.motor_collection := "notes" |}
          Documents.Note_class)
     = inr (inl "notes").
Proof.
  split; [reflexivity|]. split; [reflexivity|].
  destruct (init_collection_binding (H := Note)
              {| Documents.motor_collection := "notes" |}
              Documents.Note_class) as (Hbefore & Hafter & _).
  split; [exact (proj1 (Hbefore eq_refl))|exact (proj1 (Hafter eq_refl))].
Defined.

(** X22. [init_collection] gives the class one expression field per pydantic
    field, under the field's name and of the field's alias, or of its
    name when the alias is empty; it leaves the pydantic fields and every
    other attribute but [CollectionMeta] as they were. The [id] field of
    a document, whose alias is [_id], is thereby the expression field of
    [_id]. *)
Theorem init_collection_expression_fields :
  forall (m : Documents.CollectionMeta) (cls : Documents.DocumentClass)
         (k : string),
    Documents.__fields__ (Documents.init_collection m cls)
    = Documents.__fields__ cls
    /\ (forall v, Documents.__fields__ cls !! k = Some v ->
        Documents.attributes (Documents.init_collection m cls) !! k
        = Some (Documents.expression_field
                  (if String.eqb (Documents.alias v) ""
                   then Documents.name v else Documents.alias v)))
    /\ (Documents.__fields__ cls !! k = None ->
        k <> "CollectionMeta" ->
        Documents.attributes (Documents.init_collection m cls) !! k
        = Documents.attributes cls !! k).
Proof.
  intros m cls k.
  destruct (init_collection_attributes m cls k) as [Hfields Hattrs].
  split; [exact Hfields|]. split.
  - intros v Hv. rewrite Hattrs, Hv. reflexivity.
  - intros Hnone Hne. rewrite Hattrs, Hnone.
    now rewrite decide_False by exact Hne.
Qed.

Lemma init_collection_expression_fields_witness :
  Documents.__fields__ Documents.Note_class !! "id"
  = Some {| Documents.name := "id"; Documents.alias := "_id" |}
  /\ Documents.attributes
       (Documents.init_collection {| Documents.motor_collection := "notes" |}
          Documents.Note_class) !! "id"
     = Some (Documents.expression_field "_id").
Proof.
  split; [reflexivity|].
  destruct (init_collection_expression_fields
              {| Documents.motor_collection := "notes" |}
              Documents.Note_class "id") as (_ & Hfield & _).
  exact (Hfield {| Documents.name := "id"; Documents.alias := "_id" |}
           eq_refl).
Defined.

(** ** Writes and inspection *)

(** X16. When the store refuses the modifications, [update] raises the
    store's error at once: nothing is written, nothing is read back and
    the entity is as it was. *)
Theorem update_write_error `{DocumentModel} `{UpdateLanguage} :
  forall (self : Document) (args : list dict)
         (session : option ClientSession) (w : collection)
         (pre post : list record) (r : record) (e : string),
    records w = pre ++ r :: post ->
    Forall (fun r' => rec_id r' <> id self) pre ->
    rec_id r = id self ->
    apply_update args (rec_body r) = inl e ->
    update args session (self, w)
    = (inl (WriteError e),
       (self,
        {| records := records w;
           last_oid := last_oid w;
           trace := trace w ++
                    [update_one_call [("_id", id_value (id self))] args
                       session] |})).
Proof.
  intros self args session w pre post r e Hw Hpre Hr Hupd.
  assert (Hpre' : Forall (fun r' => has_id (id self) r' = false) pre)
    by now apply other_id.
  assert (Hr' : has_id (id self) r = true) by now apply has_id_spec.
  unfold update, FindOne_update, find_one. cbn.
  rewrite set_session_None.
  unfold mbind at 1, SE_bind at 1. cbn [this gets].
  unfold mbind at 1, SE_bind at 1, await at 1. cbn [fst snd].
  assert (Hhead : head (List.filter (has_id (id self)) (records w)) = Some r).
  { rewrite Hw. now apply head_filter_split. }
  unfold motor_update_one. run.
  rewrite selected_by_id, Hhead, Hupd. run. reflexivity.
Qed.

Lemma update_write_error_witness :
  let self := {| id := Some 1%N; fields := note_fields "0" |} in
  let args := [[("$inc", VDict [("title", VInt 1)])]] in
  apply_update (UpdateLanguage := SetOnly) args (note_fields "0")
  = inl "Unknown modifier"
  /\ update (H := Note) (H0 := SetOnly) args None (self, three_notes)
     = (inl (WriteError "Unknown modifier"),
        (self,
         {| records := records three_notes;
            last_oid := 3%N;
            trace := [update_one_call [("_id", VOid 1%N)] args None] |})).
Proof.
  intros self args. split; [reflexivity|].
  exact (update_write_error (H := Note) (H0 := SetOnly) self args None
           three_notes []
           [ {| rec_id := Some 2%N; rec_body := old_note_fields "1" |};
             {| rec_id := Some 3%N; rec_body := note_fields "2" |} ]
           {| rec_id := Some 1%N; rec_body := note_fields "0" |}
           "Unknown modifier"
           eq_refl (Forall_nil_2 _) eq_refl eq_refl).
Defined.

Lemma inspect_run `{DocumentModel} (session : option ClientSession)
    (w : collection) :
  Forall (fun r => conforms r \/ rec_id r <> None) (records w) ->
  fst (inspect_collection session w)
  = inr {| status := match spec_errors (records w) with
                     | [] => OK
                     | _ :: _ => FAIL
                     end;
           errors := spec_errors (records w) |}.
Proof. intros Hw. now rewrite inspect_identified. Qed.

(** X17. Inspection after an insert: [insert] of an entity whose fields the
    class validates keeps a conforming collection conforming, and
    [insert] of an entity whose fields it does not validate makes the
    inspection fail with the one entry of the identity just assigned. *)
Theorem inspect_after_insert `{DocumentModel} :
  forall (self : Document) (session s : option ClientSession)
         (w : collection),
    id self = None ->
    Forall conforms (records w) ->
    let w' := snd (snd (insert session (self, w))) in
    (forall f, validate (fields self) = inr f ->
       fst (inspect_collection s w') = inr {| status := OK; errors := [] |})
    /\ (forall e, validate (fields self) = inl e ->
        fst (inspect_collection s w')
        = inr {| status := FAIL;
                 errors := [{| document_id := Some (fresh_oid w);
                               error := e |}] |}).
Proof.
  intros [i b] session s w. cbn [id fields]. intros -> Hall. cbn zeta.
  rewrite insert_run. cbn [snd]. rewrite inspect_run.
  2:{ cbn [records]. apply Forall_app. split.
      - eapply Forall_impl; [exact Hall|]. intros r Hr. now left.
      - apply Forall_cons_2; [right; discriminate|apply Forall_nil_2]. }
  cbn [records]. rewrite spec_errors_app.
  rewrite (proj2 (spec_errors_conforming (records w)) Hall).
  cbn [app]. rewrite spec_errors_cons. unfold parse_obj.
  cbn [rec_id rec_body].
  split; [intros f Hval|intros e Hval]; rewrite Hval; reflexivity.
Qed.

Lemma inspect_after_insert_witness :
  id unsaved_note = None
  /\ Forall (conforms (H := Note)) (records new_collection)
  /\ validate (DocumentModel := Note) (fields unsaved_note)
     = inr (note_fields "0")
  /\ fst (inspect_collection (H := Note) None
            (snd (snd (insert None (unsaved_note, new_collection)))))
     = inr {| status := OK; errors := [] |}.
Proof.
  assert (Hall : Forall (conforms (H := Note)) (records new_collection))
    by constructor.
  split; [reflexivity|]. split; [exact Hall|]. split; [reflexivity|].
  exact (proj1 (inspect_after_insert (H := Note) unsaved_note None None
                  new_collection eq_refl Hall)
           (note_fields "0") eq_refl).
Defined.
